(** * InterSearch: the fallback search pipeline of [server.mjs]

    A shallow embedding of the gateway in [src/server.mjs]: the three source
    adapters ([primarySearch], [googleSearch], [openaiChatAnswer]), the result
    cache and the two request handlers ([GET /search], [POST /ai]), followed
    by the properties of the fallback chain.

    JavaScript values are modelled as far as the program observes them:
    strings are sequences of UTF-16 code units, parsed JSON is a tree, the
    upstream services are an oracle from requests to replies, and thrown
    exceptions are explicit results. *)

From Stdlib Require Import List NArith Bool Ascii String Lia.
From Stdlib Require Import Decimal DecimalString.
Import ListNotations.

Local Open Scope N_scope.
Local Open Scope list_scope.

(** ** JavaScript strings *)

(** A string is its sequence of UTF-16 code units. *)
Definition jsstring : Type := list N.

Module JsString.

Definition t : Type := jsstring.

(** A literal of the source, written in ASCII. *)
Definition lit (s : string) : t :=
  map N_of_ascii (list_ascii_of_string s).

Definition eqb (a b : t) : bool :=
  if list_eq_dec N.eq_dec a b then true else false.

(** The decimal text of a non-negative integer, as [${res.status}] prints it. *)
Definition of_N (n : N) : t :=
  lit (NilZero.string_of_uint (N.to_uint n)).

(** WhiteSpace and LineTerminator code points of ECMAScript, the ones that
    [String.prototype.trim] strips. All of them are in the basic plane. *)
Definition is_white_space (c : N) : bool :=
  (c =? 9) || (c =? 10) || (c =? 11) || (c =? 12) || (c =? 13) ||
  (c =? 32) || (c =? 160) || (c =? 5760) ||
  ((8192 <=? c) && (c <=? 8202)) ||
  (c =? 8232) || (c =? 8233) || (c =? 8239) || (c =? 8287) ||
  (c =? 12288) || (c =? 65279).

Fixpoint trimStart (s : t) : t :=
  match s with
  | [] => []
  | c :: rest => if is_white_space c then trimStart rest else s
  end.

Definition trimEnd (s : t) : t := List.rev (trimStart (List.rev s)).

(** [s.trim()] *)
Definition trim (s : t) : t := trimEnd (trimStart s).

(** A string is truthy when it is not empty. *)
Definition truthy (s : t) : bool :=
  match s with [] => false | _ => true end.

End JsString.

Notation "'js' s" := (JsString.lit s%string) (at level 9, s at level 0, only parsing).

(** ** Exceptions *)

(** What the program can see of a thrown value is its [message]. An [Error]
    carries the message it was built with (also the rejections of [fetch] and
    of [res.json()], whose text comes from the runtime); a [TypeError] is
    raised by the engine itself and its text is the engine's. *)
Inductive exn : Type :=
| Error (message : jsstring)
| TypeError.

Definition bind_exn {A B : Type} (x : exn + A) (f : A -> exn + B) : exn + B :=
  match x with
  | inl e => inl e
  | inr a => f a
  end.

(** ** Parsed JSON and JavaScript values *)

(** The result of [JSON.parse]. A number is represented by its canonical
    decimal text (what [ToString] gives), which determines it up to the sign
    of zero; an object by its own properties, each key listed once. *)
#[local] Set Warnings "-register-all".
Inductive json : Type :=
| JNull
| JBool (b : bool)
| JNum (repr : jsstring)
| JStr (s : jsstring)
| JArr (elems : list json)
| JObj (props : list (jsstring * json)).

(** A value an expression of the program can have: [undefined], a JSON value,
    or a built-in method picked up from a prototype. *)
Inductive value : Type :=
| VUndefined
| VJson (j : json)
| VFunction (name : jsstring).

Module Js.

Fixpoint own (props : list (jsstring * json)) (k : jsstring) : option json :=
  match props with
  | [] => None
  | (k', v) :: rest => if JsString.eqb k' k then Some v else own rest k
  end.

Definition has_own (props : list (jsstring * json)) (k : jsstring) : bool :=
  match own props k with Some _ => true | None => false end.

(** The property names the program reads from JSON values. *)
Inductive key : Type :=
| K_items | K_choices | K_0 | K_message | K_content
| K_title | K_snippet | K_link | K_prompt.

Definition key_name (k : key) : jsstring :=
  match k with
  | K_items => js "items"
  | K_choices => js "choices"
  | K_0 => js "0"
  | K_message => js "message"
  | K_content => js "content"
  | K_title => js "title"
  | K_snippet => js "snippet"
  | K_link => js "link"
  | K_prompt => js "prompt"
  end.

(** [base[k]] for a base that is neither [null] nor [undefined]. Objects
    answer from their own properties (none of the names is on
    [Object.prototype]); arrays and strings have index [0]; a string
    primitive inherits [String.prototype.link]. *)
Definition get_json (base : json) (k : key) : value :=
  match base with
  | JObj props =>
      match own props (key_name k) with
      | Some v => VJson v
      | None => VUndefined
      end
  | JArr elems =>
      match k, elems with
      | K_0, x :: _ => VJson x
      | _, _ => VUndefined
      end
  | JStr s =>
      match k, s with
      | K_0, c :: _ => VJson (JStr [c])
      | K_link, _ => VFunction (js "link")
      | _, _ => VUndefined
      end
  | _ => VUndefined
  end.

(** [base.k]: throws on [null] and [undefined]. *)
Definition get (base : value) (k : key) : exn + value :=
  match base with
  | VUndefined | VJson JNull => inl TypeError
  | VJson j => inr (get_json j k)
  | VFunction _ => inr VUndefined
  end.

(** [base?.k] *)
Definition get_opt (base : value) (k : key) : value :=
  match base with
  | VUndefined | VJson JNull => VUndefined
  | VJson j => get_json j k
  | VFunction _ => VUndefined
  end.

(** [v ?? d] *)
Definition nullish_or (v d : value) : value :=
  match v with
  | VUndefined | VJson JNull => d
  | _ => v
  end.

(** ToBoolean. Of the numbers only zero and NaN are falsy. *)
Definition truthy (v : value) : bool :=
  match v with
  | VUndefined => false
  | VJson JNull => false
  | VJson (JBool b) => b
  | VJson (JNum r) => negb (JsString.eqb r (js "0") || JsString.eqb r (js "NaN"))
  | VJson (JStr s) => JsString.truthy s
  | VJson (JArr _) => true
  | VJson (JObj _) => true
  | VFunction _ => true
  end.

(** [a || b] *)
Definition or_else (a b : value) : value :=
  if truthy a then a else b.

(** ToString of a JSON value. An array joins its elements with commas,
    [null] elements giving the empty text; a plain object prints as
    [[object Object]], unless it has an own [toString] property, which after
    [JSON.parse] is never callable. *)
Fixpoint json_to_string (j : json) : exn + jsstring :=
  match j with
  | JNull => inr (js "null")
  | JBool true => inr (js "true")
  | JBool false => inr (js "false")
  | JNum r => inr r
  | JStr s => inr s
  | JArr elems =>
      (fix join (l : list json) : exn + jsstring :=
         match l with
         | [] => inr []
         | x :: rest =>
             bind_exn
               (match x with JNull => inr [] | _ => json_to_string x end)
               (fun sx =>
                  match rest with
                  | [] => inr sx
                  | _ => bind_exn (join rest)
                           (fun sr => inr (sx ++ js "," ++ sr))
                  end)
         end) elems
  | JObj props =>
      if has_own props (js "toString") then inl TypeError
      else inr (js "[object Object]")
  end.

Definition function_text (name : jsstring) : jsstring :=
  js "function " ++ name ++ js "() { [native code] }".

(** ToString, as a template literal applies it. *)
Definition to_string (v : value) : exn + jsstring :=
  match v with
  | VUndefined => inr (js "undefined")
  | VJson j => json_to_string j
  | VFunction name => inr (function_text name)
  end.

(** [v.toString()], a method call: throws on [null] and [undefined]. *)
Definition call_toString (v : value) : exn + jsstring :=
  match v with
  | VUndefined | VJson JNull => inl TypeError
  | _ => to_string v
  end.

End Js.

(** [cleanText(t)]: [(t || "").toString().trim()] *)
Definition cleanText (t : value) : exn + jsstring :=
  bind_exn (Js.call_toString (Js.or_else t (VJson (JStr []))))
           (fun s => inr (JsString.trim s)).

(** ** Search items and outcomes *)

(** The object [googleSearch] builds for each hit. The three copied fields
    are whatever the upstream item had under that name. *)
Record SearchItem : Type := {
  title : value;
  snippet : value;
  link : value;
  source : jsstring
}.

(** The [result] objects of the [/search] handler:
    [{source: "primary", results}], [{source: "google", results}] and
    [{source: "openai", answer}]. *)
Inductive Outcome : Type :=
| FromPrimary (results : list SearchItem)
| FromGoogle (results : list SearchItem)
| FromOpenai (answer : jsstring).

Definition outcome_source (o : Outcome) : jsstring :=
  match o with
  | FromPrimary _ => js "primary"
  | FromGoogle _ => js "google"
  | FromOpenai _ => js "openai"
  end.

(** ** The result cache *)

(** Modelled from the spec: the [lru-cache] package behind
    [new LRU({ max: 500, ttl: 1000 * 60 * 5 })] is not part of the sources.
    Following sections 3 and 4.1: a mapping with at most one entry per key,
    bounded to [max] entries, each entry stamped with its creation time; an
    entry older than [ttl] is absent on lookup; a store inserts or replaces
    the entry with the current time and, when a new key would exceed the
    bound, evicts the least recently used entry first. The handler uses the
    three methods [has], [get] and [set]; [has] only tests, [get] refreshes
    the recency of the entry it returns and drops an expired one. Entries are
    kept most recently used first. *)
Module LRU.
Section WithValue.
Variable V : Type.

Record entry : Type := { key : jsstring; val : V; start : N }.

Definition t : Type := list entry.

(** The options the source constructs the cache with. *)
Definition max : N := 500.
Definition ttl : N := 1000 * 60 * 5.

Definition empty : t := [].

Fixpoint find (c : t) (k : jsstring) : option entry :=
  match c with
  | [] => None
  | e :: rest => if JsString.eqb (key e) k then Some e else find rest k
  end.

Fixpoint remove (c : t) (k : jsstring) : t :=
  match c with
  | [] => []
  | e :: rest =>
      if JsString.eqb (key e) k then remove rest k else e :: remove rest k
  end.

(** Older than the time to live. *)
Definition isStale (now : N) (e : entry) : bool := ttl <? now - start e.

(** Modelled from the spec: [cache.has(k)], missing from the sources; a live
    entry exists for the key. It only tests. *)
Definition has (c : t) (now : N) (k : jsstring) : bool :=
  match find c k with
  | Some e => negb (isStale now e)
  | None => false
  end.

(** Modelled from the spec: [cache.get(k)], missing from the sources; the
    stored value of a live entry, which becomes the most recently used, and
    [undefined] otherwise, an expired entry being dropped. *)
Definition get (c : t) (now : N) (k : jsstring) : option V * t :=
  match find c k with
  | Some e =>
      if isStale now e then (None, remove c k)
      else (Some (val e), e :: remove c k)
  | None => (None, c)
  end.

(** Modelled from the spec: [cache.set(k, v)], missing from the sources;
    inserts or fully replaces the entry of the key, stamped with the current
    time, as the most recently used; a new key at capacity first evicts the
    least recently used entry. *)
Definition set (c : t) (now : N) (k : jsstring) (v : V) : t :=
  let fresh := {| key := k; val := v; start := now |} in
  match find c k with
  | Some _ => fresh :: remove c k
  | None =>
      if max <=? N.of_nat (List.length c) then fresh :: removelast c
      else fresh :: c
  end.

End WithValue.

Arguments key {V} _.
Arguments val {V} _.
Arguments start {V} _.
Arguments empty {V}.
Arguments find {V} _ _.
Arguments remove {V} _ _.
Arguments isStale {V} _ _.
Arguments has {V} _ _ _.
Arguments get {V} _ _ _.
Arguments set {V} _ _ _ _.
End LRU.

(** ** The upstream services *)

(** The two requests the program sends. The first is the GET of
    [https://www.googleapis.com/customsearch/v1] with its four search
    parameters; the second the POST to
    [https://api.openai.com/v1/chat/completions] with its [Authorization]
    header and the object given to [JSON.stringify]. *)
Inductive Request : Type :=
| GoogleGet (key cx q num : jsstring)
| OpenaiPost (authorization : jsstring) (body : json).

(** What the program reads of a response: [res.status], and the outcome of
    [res.text()] and of [res.json()], either of which may reject (the latter
    when the body is not JSON). *)
Record Response : Type := {
  status : N;
  body_text : exn + jsstring;
  body_json : exn + json
}.

(** [res.ok] *)
Definition ok (r : Response) : bool := (200 <=? status r) && (status r <=? 299).

(** The outcome of one [await fetch(...)]: a rejection or a response, and the
    milliseconds the wait took. *)
Record Reply : Type := {
  fetched : exn + Response;
  latency : N
}.

(** The environment variables read at start-up and the services behind
    [fetch]. *)
Record World : Type := {
  OPENAI_API_KEY : jsstring;
  GOOGLE_API_KEY : jsstring;
  GOOGLE_CX : jsstring;
  upstream : Request -> Reply
}.

(** ** Observable events *)

Inductive Event : Type :=
| CallPrimary (q : jsstring)
| CallGoogle (q : jsstring)
| CallOpenai (q : jsstring) (context : list SearchItem)
| Fetch (req : Request)
| CacheHas (k : jsstring)
| CacheGet (k : jsstring)
| CacheSet (k : jsstring) (v : Outcome)
| ConsoleWarn (e : exn)
| ConsoleError (e : exn).

(** ** Adapter runs *)

(** An [async] adapter call: its result or the exception it rejects with, the
    events it caused in order, and the time spent waiting. *)
Record Run (A : Type) : Type := MkRun {
  result : exn + A;
  trace : list Event;
  elapsed : N
}.

Arguments MkRun {A} _ _ _.
Arguments result {A} _.
Arguments trace {A} _.
Arguments elapsed {A} _.

Module RunM.

Definition ret {A} (a : A) : Run A := MkRun (inr a) [] 0.

Definition throw {A} (e : exn) : Run A := MkRun (inl e) [] 0.

Definition bind {A B} (m : Run A) (f : A -> Run B) : Run B :=
  match result m with
  | inl e => MkRun (inl e) (trace m) (elapsed m)
  | inr a =>
      let n := f a in
      MkRun (result n) (trace m ++ trace n) (elapsed m + elapsed n)
  end.

Definition lift {A} (x : exn + A) : Run A := MkRun x [] 0.

Definition emit (ev : Event) : Run unit := MkRun (inr tt) [ev] 0.

(** [await fetch(req)] *)
Definition fetch (w : World) (req : Request) : Run Response :=
  let r := upstream w req in
  MkRun (fetched r) [Fetch req] (latency r).

End RunM.

Declare Scope run_scope.
Delimit Scope run_scope with run.
Notation "x <- m ;; k" := (RunM.bind m (fun x => k))
  (at level 61, m at next level, right associativity) : run_scope.
Notation "m ;; k" := (RunM.bind m (fun _ => k))
  (at level 61, right associativity) : run_scope.

(** [xs.map(f)] for an [f] that may throw: the first exception wins. *)
Fixpoint map_exn {A B : Type} (f : A -> exn + B) (xs : list A) : exn + list B :=
  match xs with
  | [] => inr []
  | x :: rest =>
      bind_exn (f x) (fun y =>
      bind_exn (map_exn f rest) (fun ys => inr (y :: ys)))
  end.

(** ** The three adapters *)

Section Adapters.
Variable w : World.

Local Open Scope run_scope.

(** [primarySearch(q)]: the stub of the local index. *)
Definition primarySearch (q : jsstring) : list SearchItem := [].

(** The arrow function mapped over the hits. *)
Definition google_item (it : json) : exn + SearchItem :=
  bind_exn (Js.get (VJson it) Js.K_title) (fun t =>
  bind_exn (Js.get (VJson it) Js.K_snippet) (fun s =>
  bind_exn (Js.get (VJson it) Js.K_link) (fun l =>
  inr {| title := t; snippet := s; link := l; source := js "google" |}))).

(** The receiver of [.map]: only an array has the method. *)
Definition as_array (v : value) : exn + list json :=
  match v with
  | VJson (JArr elems) => inr elems
  | _ => inl TypeError
  end.

Definition google_request (q : jsstring) : Request :=
  GoogleGet (GOOGLE_API_KEY w) (GOOGLE_CX w) q (js "5").

(** [googleSearch(q)] *)
Definition googleSearch (q : jsstring) : Run (list SearchItem) :=
  RunM.emit (CallGoogle q) ;;
  if negb (JsString.truthy (GOOGLE_API_KEY w))
     || negb (JsString.truthy (GOOGLE_CX w))
  then RunM.throw (Error (js "Google API key or CX not configured."))
  else
    res <- RunM.fetch w (google_request q) ;;
    if negb (ok res)
    then RunM.throw (Error (js "Google API error " ++ JsString.of_N (status res)))
    else
      data <- RunM.lift (body_json res) ;;
      items <- RunM.lift (Js.get (VJson data) Js.K_items) ;;
      elems <- RunM.lift (as_array (Js.or_else items (VJson (JArr [])))) ;;
      RunM.lift (map_exn google_item elems).

(** A message object [{role, content}]. *)
Definition message (role content : jsstring) : json :=
  JObj [(js "role", JStr role); (js "content", JStr content)].

Definition newline : jsstring := [10].

(** The arrow function mapped over the context. *)
Definition context_message (c : SearchItem) : exn + json :=
  bind_exn (Js.to_string (title c)) (fun t =>
  bind_exn (Js.to_string (snippet c)) (fun s =>
  bind_exn (Js.to_string (link c)) (fun l =>
  inr (message (js "system")
         (js "Context: " ++ t ++ newline ++ s ++ newline ++ l))))).

Definition chat_body (messages : list json) (max_tokens : jsstring) : json :=
  JObj [(js "model", JStr (js "gpt-4o-mini"));
        (js "messages", JArr messages);
        (js "temperature", JNum (js "0.3"));
        (js "max_tokens", JNum max_tokens)].

Definition chat_request (body : json) : Request :=
  OpenaiPost (js "Bearer " ++ OPENAI_API_KEY w) body.

(** The double quote character. *)
Definition dquote : jsstring := [34].

Definition search_system_prompt : jsstring :=
  js "You are " ++ dquote ++ js "I" ++ dquote
    ++ js ", an assistant that gives clear, factual answers"
    ++ js " using provided context when possible.".

(** [data?.choices?.[0]?.message?.content ?? ""] *)
Definition first_content (data : json) : value :=
  Js.nullish_or
    (Js.get_opt
       (Js.get_opt
          (Js.get_opt (Js.get_opt (VJson data) Js.K_choices) Js.K_0)
          Js.K_message)
       Js.K_content)
    (VJson (JStr [])).

(** The object [openaiChatAnswer] returns. *)
Record ChatAnswer : Type := { text : jsstring; raw : json }.

(** [openaiChatAnswer(q, context)] *)
Definition openaiChatAnswer (q : jsstring) (context : list SearchItem)
  : Run ChatAnswer :=
  RunM.emit (CallOpenai q context) ;;
  if negb (JsString.truthy (OPENAI_API_KEY w))
  then RunM.throw (Error (js "OPENAI_API_KEY not set."))
  else
    ctx <- RunM.lift (map_exn context_message context) ;;
    let messages :=
      message (js "system") search_system_prompt
        :: ctx ++ [message (js "user") q] in
    res <- RunM.fetch w (chat_request (chat_body messages (js "800"))) ;;
    if negb (ok res)
    then
      txt <- RunM.lift (body_text res) ;;
      RunM.throw (Error (js "OpenAI error " ++ JsString.of_N (status res)
                           ++ js ": " ++ txt))
    else
      data <- RunM.lift (body_json res) ;;
      t <- RunM.lift (cleanText (first_content data)) ;;
      RunM.ret {| text := t; raw := data |}.

End Adapters.

(** ** The server *)

(** The process state a handler works on: the module-level [cache], the
    clock the cache reads (milliseconds), and what has been observed so far. *)
Record Server : Type := {
  cache : LRU.t Outcome;
  now : N;
  log : list Event
}.

(** The body given to [res.json]. A search body is the spread of a result
    object ([None] for the spread of [undefined]) and the [cached] flag; the
    last two are [{error: "..."}] with a literal and with [err.message]. *)
Inductive Body : Type :=
| SearchBody (o : option Outcome) (cached : bool)
| AiBody (assistant reply : jsstring)
| ErrorText (error : jsstring)
| ErrorOf (err : exn).

Record HttpReply : Type := { code : N; payload : Body }.

(** A handler body: may throw, and threads the server state. *)
Definition Handler (A : Type) : Type := Server -> (exn + A) * Server.

Module HandlerM.

Definition ret {A} (a : A) : Handler A := fun s => (inr a, s).

Definition throw {A} (e : exn) : Handler A := fun s => (inl e, s).

Definition bind {A B} (m : Handler A) (f : A -> Handler B) : Handler B :=
  fun s =>
    match m s with
    | (inl e, s') => (inl e, s')
    | (inr a, s') => f a s'
    end.

Definition lift {A} (x : exn + A) : Handler A := fun s => (x, s).

(** [try { m } catch (err) { h err }] *)
Definition try_catch {A} (m : Handler A) (h : exn -> Handler A) : Handler A :=
  fun s =>
    match m s with
    | (inl e, s') => h e s'
    | (inr a, s') => (inr a, s')
    end.

Definition record (evs : list Event) (s : Server) : Server :=
  {| cache := cache s; now := now s; log := log s ++ evs |}.

(** [await] of an adapter call: its events happen, its time passes. *)
Definition await {A} (r : Run A) : Handler A :=
  fun s =>
    (result r,
     {| cache := cache s; now := now s + elapsed r; log := log s ++ trace r |}).

Definition cache_has (k : jsstring) : Handler bool :=
  fun s => (inr (LRU.has (cache s) (now s) k), record [CacheHas k] s).

Definition cache_get (k : jsstring) : Handler (option Outcome) :=
  fun s =>
    let (v, c) := LRU.get (cache s) (now s) k in
    (inr v, {| cache := c; now := now s; log := log s ++ [CacheGet k] |}).

Definition cache_set (k : jsstring) (v : Outcome) : Handler unit :=
  fun s =>
    (inr tt,
     {| cache := LRU.set (cache s) (now s) k v;
        now := now s;
        log := log s ++ [CacheSet k v] |}).

Definition console_warn (e : exn) : Handler unit :=
  fun s => (inr tt, record [ConsoleWarn e] s).

Definition console_error (e : exn) : Handler unit :=
  fun s => (inr tt, record [ConsoleError e] s).

(** The outer [try]/[catch] of both handlers: log the error and answer 500
    with its message. *)
Definition respond (m : Handler HttpReply) : Server -> HttpReply * Server :=
  fun s =>
    match m s with
    | (inr r, s') => (r, s')
    | (inl e, s') =>
        ({| code := 500; payload := ErrorOf e |}, record [ConsoleError e] s')
    end.

End HandlerM.

Declare Scope handler_scope.
Delimit Scope handler_scope with handler.
Notation "x <- m ;; k" := (HandlerM.bind m (fun x => k))
  (at level 61, m at next level, right associativity) : handler_scope.
Notation "m ;; k" := (HandlerM.bind m (fun _ => k))
  (at level 61, right associativity) : handler_scope.

(** [req.query.q] as Express parses it: absent, a string, or an array or
    object for a repeated or bracketed parameter. *)
Inductive QueryParam : Type :=
| QMissing
| QText (s : jsstring)
| QNested.

(** [(req.query.q || "").trim()] *)
Definition query_text (p : QueryParam) : exn + jsstring :=
  match p with
  | QMissing => inr (JsString.trim [])
  | QText s => inr (JsString.trim (if JsString.truthy s then s else []))
  | QNested => inl TypeError
  end.

Definition json_reply (b : Body) : HttpReply := {| code := 200; payload := b |}.

Definition has_length {A : Type} (xs : list A) : bool :=
  match xs with [] => false | _ => true end.

Section Handlers.
(** The local index is a stub to be replaced, so the handler is written
    over any index function; [search] below is the handler of the source. *)
Variable primary : jsstring -> list SearchItem.
Variable w : World.

Local Open Scope handler_scope.

(** The inner [try] block around the web search: either the handler
    returned from inside it, or it goes on with [googleResults]. *)
Definition web_step (q : jsstring) : Handler (HttpReply + list SearchItem) :=
  HandlerM.try_catch
    (googleResults <- HandlerM.await (googleSearch w q) ;;
     if has_length googleResults then
       let result := FromGoogle googleResults in
       HandlerM.cache_set q result ;;
       HandlerM.ret (inl (json_reply (SearchBody (Some result) false)))
     else HandlerM.ret (inr googleResults))
    (fun err =>
       HandlerM.console_warn err ;;
       HandlerM.ret (inr [])).

(** The handler of [GET /search], inside its outer [try]. *)
Definition search_body (p : QueryParam) : Handler HttpReply :=
  q <- HandlerM.lift (query_text p) ;;
  if negb (JsString.truthy q) then
    HandlerM.ret {| code := 400; payload := ErrorText (js "Missing ?q=") |}
  else
    hit <- HandlerM.cache_has q ;;
    if hit then
      v <- HandlerM.cache_get q ;;
      HandlerM.ret (json_reply (SearchBody v true))
    else
      found <- HandlerM.await
                 (RunM.bind (RunM.emit (CallPrimary q))
                            (fun _ => RunM.ret (primary q))) ;;
      if has_length found then
        let result := FromPrimary found in
        HandlerM.cache_set q result ;;
        HandlerM.ret (json_reply (SearchBody (Some result) false))
      else
        step <- web_step q ;;
        match step with
        | inl reply => HandlerM.ret reply
        | inr googleResults =>
            ai <- HandlerM.await (openaiChatAnswer w q googleResults) ;;
            let result := FromOpenai (text ai) in
            HandlerM.cache_set q result ;;
            HandlerM.ret (json_reply (SearchBody (Some result) false))
        end.

Definition search_with (p : QueryParam) : Server -> HttpReply * Server :=
  HandlerM.respond (search_body p).

End Handlers.

(** [app.get("/search", ...)] *)
Definition search (w : World) (p : QueryParam) : Server -> HttpReply * Server :=
  search_with primarySearch w p.

Section Assistant.
Variable w : World.

Local Open Scope handler_scope.

Definition ai_system_prompt : jsstring :=
  js "You are " ++ dquote ++ js "I" ++ dquote
    ++ js ", an intelligent assistant similar to ChatGPT."
    ++ js " Be accurate, clear, and safe.".

Definition ai_request (prompt : jsstring) : Request :=
  chat_request w
    (chat_body [message (js "system") ai_system_prompt;
                message (js "user") prompt]
               (js "1000")).

(** The handler of [POST /ai], inside its [try]; [body] is [req.body]. *)
Definition ai_body (body : value) : Handler HttpReply :=
  prompt <- HandlerM.lift (cleanText (Js.get_opt body Js.K_prompt)) ;;
  if negb (JsString.truthy prompt) then
    HandlerM.ret {| code := 400; payload := ErrorText (js "prompt required") |}
  else
    r <- HandlerM.await (RunM.fetch w (ai_request prompt)) ;;
    if negb (ok r) then
      txt <- HandlerM.lift (body_text r) ;;
      HandlerM.throw (Error (js "OpenAI error " ++ JsString.of_N (status r)
                               ++ js ": " ++ txt))
    else
      data <- HandlerM.lift (body_json r) ;;
      reply <- HandlerM.lift (cleanText (first_content data)) ;;
      HandlerM.ret (json_reply (AiBody (js "I") reply)).

(** [app.post("/ai", ...)] *)
Definition ai (body : value) : Server -> HttpReply * Server :=
  HandlerM.respond (ai_body body).

End Assistant.

(** * Specification vocabulary and sample inputs *)

(** The query a request carries, when it has one: the trimmed, non-empty
    text under which the cache is consulted. *)
Definition query_of (p : QueryParam) (q : jsstring) : Prop :=
  query_text p = inr q /\ q <> [].

(** The handler up to the end of the primary lookup, for a query that is
    not served from the cache and that the index does not know. *)
Definition after_primary (q : jsstring) (s : Server) : Server :=
  HandlerM.record [CacheHas q; CallPrimary q] s.

(** What the web step leaves behind when it does not return a reply: the
    events of the search and, if it threw, the warning. *)
Definition web_events (w : World) (q : jsstring) : list Event :=
  trace (googleSearch w q)
    ++ match result (googleSearch w q) with
       | inl err => [ConsoleWarn err]
       | inr _ => []
       end.

(** The item sequence the web step hands on: the adapter's on success,
    the initial empty array when it threw. *)
Definition web_items (w : World) (q : jsstring) : list SearchItem :=
  match result (googleSearch w q) with
  | inr items => items
  | inl _ => []
  end.

(** Every run of the search handler takes one of seven paths. *)
Inductive search_path (primary : jsstring -> list SearchItem) (w : World)
  (p : QueryParam) (s : Server) : HttpReply -> Server -> Prop :=
| path_rejected :
    query_text p = inr [] ->
    search_path primary w p s
      {| code := 400; payload := ErrorText (js "Missing ?q=") |} s
| path_thrown err :
    query_text p = inl err ->
    search_path primary w p s
      {| code := 500; payload := ErrorOf err |}
      (HandlerM.record [ConsoleError err] s)
| path_hit q e :
    query_of p q ->
    LRU.find (cache s) q = Some e ->
    LRU.isStale (now s) e = false ->
    search_path primary w p s
      (json_reply (SearchBody (Some (LRU.val e)) true))
      {| cache := e :: LRU.remove (cache s) q;
         now := now s;
         log := log s ++ [CacheHas q; CacheGet q] |}
| path_primary q :
    query_of p q ->
    LRU.has (cache s) (now s) q = false ->
    primary q <> [] ->
    search_path primary w p s
      (json_reply (SearchBody (Some (FromPrimary (primary q))) false))
      {| cache := LRU.set (cache s) (now s) q (FromPrimary (primary q));
         now := now s;
         log := log s ++ [CacheHas q; CallPrimary q;
                          CacheSet q (FromPrimary (primary q))] |}
| path_web q items :
    query_of p q ->
    LRU.has (cache s) (now s) q = false ->
    primary q = [] ->
    result (googleSearch w q) = inr items ->
    items <> [] ->
    search_path primary w p s
      (json_reply (SearchBody (Some (FromGoogle items)) false))
      {| cache := LRU.set (cache s) (now s + elapsed (googleSearch w q)) q
                    (FromGoogle items);
         now := now s + elapsed (googleSearch w q);
         log := log s ++ [CacheHas q; CallPrimary q]
                  ++ trace (googleSearch w q)
                  ++ [CacheSet q (FromGoogle items)] |}
| path_generated q ai :
    query_of p q ->
    LRU.has (cache s) (now s) q = false ->
    primary q = [] ->
    (exists err, result (googleSearch w q) = inl err)
    \/ result (googleSearch w q) = inr [] ->
    result (openaiChatAnswer w q []) = inr ai ->
    let t := now s + elapsed (googleSearch w q)
             + elapsed (openaiChatAnswer w q []) in
    search_path primary w p s
      (json_reply (SearchBody (Some (FromOpenai (text ai))) false))
      {| cache := LRU.set (cache s) t q (FromOpenai (text ai));
         now := t;
         log := log s ++ [CacheHas q; CallPrimary q] ++ web_events w q
                  ++ trace (openaiChatAnswer w q [])
                  ++ [CacheSet q (FromOpenai (text ai))] |}
| path_failed q err :
    query_of p q ->
    LRU.has (cache s) (now s) q = false ->
    primary q = [] ->
    (exists e, result (googleSearch w q) = inl e)
    \/ result (googleSearch w q) = inr [] ->
    result (openaiChatAnswer w q []) = inl err ->
    search_path primary w p s
      {| code := 500; payload := ErrorOf err |}
      {| cache := cache s;
         now := now s + elapsed (googleSearch w q)
                + elapsed (openaiChatAnswer w q []);
         log := log s ++ [CacheHas q; CallPrimary q] ++ web_events w q
                  ++ trace (openaiChatAnswer w q [])
                  ++ [ConsoleError err] |}.

(** The two routes with decision logic. *)
Inductive HttpRequest : Type :=
| GetSearch (q : QueryParam)
| PostAi (body : value).

Definition app (w : World) (req : HttpRequest) : Server -> HttpReply * Server :=
  match req with
  | GetSearch p => search w p
  | PostAi body => ai w body
  end.

(** The query or prompt is missing, or is a string that trims to the empty
    string. *)
Definition blank (req : HttpRequest) : Prop :=
  match req with
  | GetSearch p =>
      p = QMissing \/ exists raw, p = QText raw /\ JsString.trim raw = []
  | PostAi body =>
      Js.get_opt body Js.K_prompt = VUndefined
      \/ exists raw, Js.get_opt body Js.K_prompt = VJson (JStr raw)
                     /\ JsString.trim raw = []
  end.

Definition rejection (req : HttpRequest) : HttpReply :=
  {| code := 400;
     payload := ErrorText match req with
                          | GetSearch _ => js "Missing ?q="
                          | PostAi _ => js "prompt required"
                          end |}.

(** The states of the running server: it starts with an empty cache, serves
    requests one after the other, and time passes in between. *)
Inductive reachable : Server -> Prop :=
| reach_start t :
    reachable {| cache := LRU.empty; now := t; log := [] |}
| reach_request w req s :
    reachable s -> reachable (snd (app w req s))
| reach_wait d s :
    reachable s ->
    reachable {| cache := cache s; now := now s + d; log := log s |}.

Definition is_primary (o : Outcome) : bool :=
  match o with FromPrimary _ => true | _ => false end.

(** No primary outcome is cached, and none has ever been stored. *)
Definition primary_free (s : Server) : Prop :=
  (forall e, In e (cache s) -> is_primary (LRU.val e) = false)
  /\ (forall k v, In (CacheSet k v) (log s) -> is_primary v = false).

(** One hit of an upstream answer. *)
Definition sample_hit : json :=
  JObj [(js "title", JStr (js "Paris"));
        (js "snippet", JStr (js "Paris is the capital of France."));
        (js "link", JStr (js "https://example.org/paris"))].

Definition json_response (data : json) : Reply :=
  {| fetched := inr {| status := 200; body_text := inr []; body_json := inr data |};
     latency := 120 |}.

(** A chat completion with one choice. *)
Definition chat_answer (content : json) : json :=
  JObj [(js "choices",
         JArr [JObj [(js "message", JObj [(js "content", content)])]])].

(** A configured server whose search service answers every query with
    [n] hits and whose chat service answers with [content]. *)
Definition sample_world (n : nat) (content : json) : World :=
  {| OPENAI_API_KEY := js "sk-test";
     GOOGLE_API_KEY := js "g-key";
     GOOGLE_CX := js "g-cx";
     upstream := fun req =>
       match req with
       | GoogleGet _ _ _ _ =>
           json_response (JObj [(js "items", JArr (repeat sample_hit n))])
       | OpenaiPost _ _ => json_response (chat_answer content)
       end |}.

(** The request [openaiChatAnswer(q, context)] sends once the context has
    been rendered as [ctx]. *)
Definition answer_request (w : World) (q : jsstring) (ctx : list json) : Request :=
  chat_request w
    (chat_body (message (js "system") search_system_prompt
                  :: ctx ++ [message (js "user") q])
               (js "800")).

(** The reply the assistant route would give if it passed on the result of
    an adapter invocation. *)
Definition assistant_reply (r : exn + ChatAnswer) : HttpReply :=
  match r with
  | inr answer => json_reply (AiBody (js "I") (text answer))
  | inl err => {| code := 500; payload := ErrorOf err |}
  end.

(** A chat service that tells its callers apart: it answers with the
    [max_tokens] it was asked for. *)
Definition token_echo (req : Request) : Reply :=
  match req with
  | OpenaiPost _ (JObj props) =>
      match Js.own props (js "max_tokens") with
      | Some limit => json_response (chat_answer limit)
      | None => json_response (JObj [])
      end
  | _ => json_response (JObj [])
  end.

(** A chat service that refuses every request as unauthorized. *)
Definition unauthorized (req : Request) : Reply :=
  {| fetched := inr {| status := 401;
                       body_text := inr (js "missing bearer token");
                       body_json := inl (Error (js "not read")) |};
     latency := 80 |}.

Definition start : Server := {| cache := LRU.empty; now := 0; log := [] |}.

Definition hello : value := VJson (JObj [(js "prompt", JStr (js "hello"))]).

(** The same server without the credentials of one service. *)
Definition without_google (w : World) : World :=
  {| OPENAI_API_KEY := OPENAI_API_KEY w;
     GOOGLE_API_KEY := [];
     GOOGLE_CX := [];
     upstream := upstream w |}.

Definition without_openai (w : World) : World :=
  {| OPENAI_API_KEY := [];
     GOOGLE_API_KEY := GOOGLE_API_KEY w;
     GOOGLE_CX := GOOGLE_CX w;
     upstream := upstream w |}.

(** A request for [?q=%20capital%20of%20France%20] and its query. *)
Definition france : QueryParam := QText (js " capital of France ").

Definition france_query : jsstring := js "capital of France".

(** An index that knows one document, whatever the query. *)
Definition one_document (q : jsstring) : list SearchItem :=
  [{| title := VJson (JStr (js "Paris"));
      snippet := VJson (JStr (js "Local note on Paris."));
      link := VJson (JStr (js "file:///notes/paris"));
      source := js "primary" |}].

Definition later (d : N) (s : Server) : Server :=
  {| cache := cache s; now := now s + d; log := log s |}.


(** ** Vocabulary of the further properties *)

(** The string does not begin with white space. *)
Definition starts_clean (s : jsstring) : Prop :=
  match s with
  | [] => True
  | c :: _ => JsString.is_white_space c = false
  end.

(** The string neither begins nor ends with white space. *)
Definition trimmed (s : jsstring) : Prop :=
  starts_clean s /\ starts_clean (List.rev s).

Definition is_array_or_object (v : value) : Prop :=
  match v with
  | VJson (JArr _) | VJson (JObj _) => True
  | _ => False
  end.

(** Both search credentials are set. *)
Definition google_configured (w : World) : bool :=
  JsString.truthy (GOOGLE_API_KEY w) && JsString.truthy (GOOGLE_CX w).

(** The item made of a hit that is not [null]. *)
Definition item_of_hit (it : json) : SearchItem :=
  {| title := Js.get_json it Js.K_title;
     snippet := Js.get_json it Js.K_snippet;
     link := Js.get_json it Js.K_link;
     source := js "google" |}.

(** A configured server whose services refuse every request. *)
Definition refused_world : World :=
  {| OPENAI_API_KEY := js "sk-test";
     GOOGLE_API_KEY := js "g-key";
     GOOGLE_CX := js "g-cx";
     upstream := unauthorized |}.

(** A configured server whose services answer every request with the JSON
    value [data]. *)
Definition constant_world (data : json) : World :=
  {| OPENAI_API_KEY := js "sk-test";
     GOOGLE_API_KEY := js "g-key";
     GOOGLE_CX := js "g-cx";
     upstream := fun _ => json_response data |}.

(** What a handler run added to the log. *)
Definition new_events (s s' : Server) : list Event :=
  skipn (List.length (log s)) (log s').

Definition is_call (ev : Event) : bool :=
  match ev with
  | CallPrimary _ | CallGoogle _ | CallOpenai _ _ => true
  | _ => false
  end.

Definition is_fetch (ev : Event) : bool :=
  match ev with Fetch _ => true | _ => false end.

Definition is_store (ev : Event) : bool :=
  match ev with CacheSet _ _ => true | _ => false end.

(** At most one entry per key, and no more entries than the bound the
    cache was constructed with. *)
Definition well_kept {V : Type} (c : LRU.t V) : Prop :=
  NoDup (map LRU.key c) /\ N.of_nat (List.length c) <= LRU.max.

(** The entry is filed under a non-empty, trimmed query and holds a result
    worth returning: found items, or a trimmed answer. *)
Definition well_keyed (e : LRU.entry Outcome) : Prop :=
  LRU.key e <> []
  /\ trimmed (LRU.key e)
  /\ match LRU.val e with
     | FromPrimary items => items <> []
     | FromGoogle items => items <> []
     | FromOpenai answer => trimmed answer
     end.

(** An object that cannot be turned into text. *)
Definition unprintable : json := JObj [(js "toString", JNull)].

(** The server four hundred seconds after it answered the sample search from
    the web. *)
Definition much_later : Server :=
  later 400000 (snd (search (sample_world 1 JNull) france start)).

(** * Properties *)

(** ** Strings *)

Lemma eqb_refl (k : jsstring) : JsString.eqb k k = true.
Proof.
  unfold JsString.eqb. destruct (list_eq_dec N.eq_dec k k); congruence.
Qed.

Lemma eqb_eq (a b : jsstring) : JsString.eqb a b = true -> a = b.
Proof.
  unfold JsString.eqb. destruct (list_eq_dec N.eq_dec a b); congruence.
Qed.

Lemma truthy_nonempty (s : jsstring) : JsString.truthy s = true <-> s <> [].
Proof.
  destruct s; simpl; split; congruence.
Qed.

(** ** The cache *)

Section CacheFacts.
Context {V : Type}.
Implicit Types (c : LRU.t V) (k : jsstring) (e : LRU.entry V).

Lemma find_key c k e : LRU.find c k = Some e -> LRU.key e = k.
Proof.
  induction c as [|x c IH]; simpl; [discriminate|].
  destruct (JsString.eqb (LRU.key x) k) eqn:E; [|exact IH].
  intros [= <-]. now apply eqb_eq.
Qed.

Lemma find_In c k e : LRU.find c k = Some e -> In e c.
Proof.
  induction c as [|x c IH]; simpl; [discriminate|].
  destruct (JsString.eqb (LRU.key x) k); [intros [= <-]; now left|].
  intros H. right. auto.
Qed.

Lemma remove_In c k e : In e (LRU.remove c k) -> In e c.
Proof.
  induction c as [|x c IH]; simpl; [tauto|].
  destruct (JsString.eqb (LRU.key x) k); simpl; intuition.
Qed.

Lemma removelast_In (l : list (LRU.entry V)) e : In e (removelast l) -> In e l.
Proof.
  induction l as [|x l IH]; simpl; [tauto|].
  destruct l as [|y l]; simpl in *; intuition.
Qed.

(** A store makes its entry the one found under the key. *)
Lemma find_set c t k (v : V) :
  LRU.find (LRU.set c t k v) k
  = Some {| LRU.key := k; LRU.val := v; LRU.start := t |}.
Proof.
  unfold LRU.set.
  destruct (LRU.find c k); [|destruct (LRU.max <=? _)];
    simpl; now rewrite eqb_refl.
Qed.

(** Any entry of the cache after a store is the fresh one or was there. *)
Lemma set_In c t k (v : V) e :
  In e (LRU.set c t k v) ->
  e = {| LRU.key := k; LRU.val := v; LRU.start := t |} \/ In e c.
Proof.
  unfold LRU.set.
  destruct (LRU.find c k); [|destruct (LRU.max <=? _)]; simpl;
    intros [<-|H]; auto; right;
    eauto using remove_In, removelast_In.
Qed.

Lemma has_true c t k :
  LRU.has c t k = true ->
  exists e, LRU.find c k = Some e /\ LRU.isStale t e = false.
Proof.
  unfold LRU.has. destruct (LRU.find c k) as [e|]; [|discriminate].
  intros H. exists e. split; [reflexivity|].
  now destruct (LRU.isStale t e).
Qed.

End CacheFacts.

(** ** Adapter runs *)

Lemma bind_trace {A B} (m : Run A) (f : A -> Run B) (ev : Event) :
  In ev (trace (RunM.bind m f)) ->
  In ev (trace m) \/ exists a, result m = inr a /\ In ev (trace (f a)).
Proof.
  unfold RunM.bind. destruct (result m) as [e|a] eqn:E; simpl; [tauto|].
  rewrite in_app_iff. intros [H|H]; [tauto|]. right. now exists a.
Qed.

Lemma bind_result {A B} (m : Run A) (f : A -> Run B) (b : B) :
  result (RunM.bind m f) = inr b ->
  exists a, result m = inr a /\ result (f a) = inr b.
Proof.
  unfold RunM.bind. destruct (result m) as [e|a]; simpl; [discriminate|].
  intros H. now exists a.
Qed.

Lemma if_trace {A} (c : bool) (x y : Run A) (ev : Event) :
  In ev (trace (if c then x else y)) -> In ev (trace x) \/ In ev (trace y).
Proof. destruct c; tauto. Qed.

(** An adapter call never touches the cache: the web search causes only its
    own invocation event and at most the one request it sends. *)
Lemma googleSearch_trace w q ev :
  In ev (trace (googleSearch w q)) ->
  ev = CallGoogle q \/ ev = Fetch (google_request w q).
Proof.
  unfold googleSearch. intros H.
  apply bind_trace in H as [[<-|[]]|(_ & _ & H)]; [now left|].
  apply if_trace in H as [[]|H].
  apply bind_trace in H as [[<-|[]]|(res & _ & H)]; [now right|].
  apply if_trace in H as [[]|H].
  apply bind_trace in H as [[]|(data & _ & H)].
  apply bind_trace in H as [[]|(items & _ & H)].
  apply bind_trace in H as [[]|(elems & _ & [])].
Qed.

Lemma openaiChatAnswer_trace w q context ev :
  In ev (trace (openaiChatAnswer w q context)) ->
  ev = CallOpenai q context \/ exists req, ev = Fetch req.
Proof.
  unfold openaiChatAnswer. intros H.
  apply bind_trace in H as [[<-|[]]|(_ & _ & H)]; [now left|].
  apply if_trace in H as [[]|H].
  apply bind_trace in H as [[]|(ctx & _ & H)].
  apply bind_trace in H as [[<-|[]]|(res & _ & H)]; [right; eauto|].
  apply if_trace in H as [H|H].
  - apply bind_trace in H as [[]|(txt & _ & [])].
  - apply bind_trace in H as [[]|(data & _ & H)].
    apply bind_trace in H as [[]|(t & _ & [])].
Qed.

(** The invocation itself is always the first event of the run. *)
Lemma openaiChatAnswer_called w q context :
  exists rest, trace (openaiChatAnswer w q context) = CallOpenai q context :: rest.
Proof.
  unfold openaiChatAnswer, RunM.bind at 1. simpl. eexists. reflexivity.
Qed.

(** ** The search handler *)

Arguments JsString.lit : simpl never.
Arguments googleSearch : simpl never.
Arguments openaiChatAnswer : simpl never.
Arguments LRU.set : simpl never.
Arguments LRU.has : simpl never.
Arguments LRU.get : simpl never.

Ltac handler_unfold :=
  unfold search, search_with, ai, HandlerM.respond, search_body, ai_body,
    web_step, HandlerM.try_catch, HandlerM.bind, HandlerM.lift,
    HandlerM.await, HandlerM.cache_has, HandlerM.cache_get,
    HandlerM.cache_set, HandlerM.console_warn, HandlerM.console_error,
    HandlerM.ret, HandlerM.throw, HandlerM.record.

Ltac tidy :=
  cbn; rewrite ?N.add_0_r, <- ?app_assoc, ?app_nil_r;
  cbn; rewrite <- ?app_assoc; cbn.

Lemma search_miss primary w p q s :
  query_of p q ->
  LRU.has (cache s) (now s) q = false ->
  primary q = [] ->
  search_with primary w p s =
  HandlerM.respond
    (HandlerM.bind (web_step w q) (fun step =>
       match step with
       | inl reply => HandlerM.ret reply
       | inr googleResults =>
           HandlerM.bind
             (HandlerM.await (openaiChatAnswer w q googleResults))
             (fun ai =>
                HandlerM.bind (HandlerM.cache_set q (FromOpenai (text ai)))
                  (fun _ =>
                     HandlerM.ret
                       (json_reply
                          (SearchBody (Some (FromOpenai (text ai))) false))))
       end))
    (after_primary q s).
Proof.
  intros [Hq Hne] Hmiss Hp. apply truthy_nonempty in Hne.
  unfold search_with, HandlerM.respond, search_body.
  unfold HandlerM.bind at 1, HandlerM.lift. rewrite Hq, Hne. simpl.
  unfold HandlerM.bind at 1, HandlerM.cache_has. rewrite Hmiss.
  unfold HandlerM.bind at 1, HandlerM.await. simpl. rewrite Hp. simpl.
  unfold after_primary, HandlerM.record. tidy. reflexivity.
Qed.

Lemma web_step_falls_through w q s :
  (exists err, result (googleSearch w q) = inl err)
  \/ result (googleSearch w q) = inr [] ->
  web_step w q s =
    (inr (inr []),
     {| cache := cache s;
        now := now s + elapsed (googleSearch w q);
        log := log s ++ web_events w q |}).
Proof.
  unfold web_events. intros [[err H]|H]; handler_unfold; rewrite H; tidy;
    reflexivity.
Qed.

(** The fallback chain from the web step on, for a web search that failed
    or found nothing: the generative adapter runs with an empty context and
    decides the reply. *)
Lemma search_fallback primary w p q s :
  query_of p q ->
  LRU.has (cache s) (now s) q = false ->
  primary q = [] ->
  (exists err, result (googleSearch w q) = inl err)
  \/ result (googleSearch w q) = inr [] ->
  let run := openaiChatAnswer w q [] in
  let s1 :=
    {| cache := cache s;
       now := now s + elapsed (googleSearch w q) + elapsed run;
       log := log s ++ [CacheHas q; CallPrimary q] ++ web_events w q
                ++ trace run |} in
  search_with primary w p s =
    match result run with
    | inr ai =>
        (json_reply (SearchBody (Some (FromOpenai (text ai))) false),
         {| cache := LRU.set (cache s) (now s1) q (FromOpenai (text ai));
            now := now s1;
            log := log s1 ++ [CacheSet q (FromOpenai (text ai))] |})
    | inl err =>
        ({| code := 500; payload := ErrorOf err |},
         HandlerM.record [ConsoleError err] s1)
    end.
Proof.
  intros Hq Hmiss Hp Hg run s1. subst s1 run.
  rewrite (search_miss _ _ _ _ _ Hq Hmiss Hp).
  unfold HandlerM.respond, HandlerM.bind at 1.
  rewrite web_step_falls_through by exact Hg.
  handler_unfold. unfold after_primary.
  destruct (result (openaiChatAnswer w q [])) as [err|ai]; tidy; reflexivity.
Qed.

Lemma web_items_empty w q :
  (exists err, result (googleSearch w q) = inl err)
  \/ result (googleSearch w q) = inr [] ->
  web_items w q = [].
Proof.
  unfold web_items. intros [[err ->]| ->]; reflexivity.
Qed.

(** C1. When the index has nothing and the web search fails, with whatever
    exception, the failure is only logged as a warning; if the generative
    adapter then succeeds, the request is answered 200 with the generated
    answer, which is also stored in the cache. *)
Theorem search_absorbs_web_failure primary w p q s err ai :
  query_of p q ->
  LRU.has (cache s) (now s) q = false ->
  primary q = [] ->
  result (googleSearch w q) = inl err ->
  result (openaiChatAnswer w q []) = inr ai ->
  let t := now s + elapsed (googleSearch w q)
           + elapsed (openaiChatAnswer w q []) in
  search_with primary w p s =
    (json_reply (SearchBody (Some (FromOpenai (text ai))) false),
     {| cache := LRU.set (cache s) t q (FromOpenai (text ai));
        now := t;
        log := log s ++ [CacheHas q; CallPrimary q]
                 ++ trace (googleSearch w q) ++ [ConsoleWarn err]
                 ++ trace (openaiChatAnswer w q [])
                 ++ [CacheSet q (FromOpenai (text ai))] |}).
Proof.
  intros Hq Hmiss Hp Hg Ho t. subst t.
  rewrite (search_fallback _ _ _ _ _ Hq Hmiss Hp) by eauto.
  rewrite Ho. unfold web_events. rewrite Hg. tidy. reflexivity.
Qed.

(** C2. When the index has nothing and the web search fails or finds
    nothing, the generative adapter is invoked, with the item sequence of the
    web step as context (empty in both cases), and its result decides the
    reply. *)
Theorem search_reaches_generative primary w p q s :
  query_of p q ->
  LRU.has (cache s) (now s) q = false ->
  primary q = [] ->
  (exists err, result (googleSearch w q) = inl err)
  \/ result (googleSearch w q) = inr [] ->
  let run := openaiChatAnswer w q (web_items w q) in
  web_items w q = [] /\
  In (CallOpenai q (web_items w q)) (trace run) /\
  (exists after,
     log (snd (search_with primary w p s))
     = log s ++ [CacheHas q; CallPrimary q] ++ web_events w q
         ++ trace run ++ after) /\
  fst (search_with primary w p s)
  = match result run with
    | inr ai => json_reply (SearchBody (Some (FromOpenai (text ai))) false)
    | inl err => {| code := 500; payload := ErrorOf err |}
    end.
Proof.
  intros Hq Hmiss Hp Hg run. subst run.
  rewrite (web_items_empty _ _ Hg). split; [reflexivity|]. split.
  { destruct (openaiChatAnswer_called w q []) as [rest ->]. now left. }
  rewrite (search_fallback _ _ _ _ _ Hq Hmiss Hp Hg).
  destruct (result (openaiChatAnswer w q [])) as [err|ai]; tidy;
    (split; [eexists; reflexivity|reflexivity]).
Qed.

(** C3. When the index returns a non-empty item sequence, the request is
    answered with exactly these items as the primary outcome, the outcome is
    stored in the cache under the query, and the only events are the cache
    test, the index call and the store: no web search, no generative call,
    no request to any upstream service. *)
Theorem search_primary_short_circuit primary w p q s items :
  query_of p q ->
  LRU.has (cache s) (now s) q = false ->
  primary q = items ->
  items <> [] ->
  search_with primary w p s =
    (json_reply (SearchBody (Some (FromPrimary items)) false),
     {| cache := LRU.set (cache s) (now s) q (FromPrimary items);
        now := now s;
        log := log s ++ [CacheHas q; CallPrimary q;
                         CacheSet q (FromPrimary items)] |})
  /\ LRU.find (LRU.set (cache s) (now s) q (FromPrimary items)) q
     = Some {| LRU.key := q; LRU.val := FromPrimary items;
               LRU.start := now s |}.
Proof.
  intros [Hq Hne] Hmiss Hp Hi. split; [|apply find_set].
  apply truthy_nonempty in Hne.
  handler_unfold. rewrite Hq, Hne. cbn. rewrite Hmiss. cbn.
  rewrite Hp. destruct items; [congruence|]. tidy. reflexivity.
Qed.

(** C5. When the chain reaches the generative adapter and that adapter
    fails, the request is answered 500 with the adapter's error, the cache
    is left as it was, and no store happens. *)
Theorem search_generative_failure primary w p q s err :
  query_of p q ->
  LRU.has (cache s) (now s) q = false ->
  primary q = [] ->
  (exists e, result (googleSearch w q) = inl e)
  \/ result (googleSearch w q) = inr [] ->
  result (openaiChatAnswer w q (web_items w q)) = inl err ->
  fst (search_with primary w p s) = {| code := 500; payload := ErrorOf err |}
  /\ cache (snd (search_with primary w p s)) = cache s
  /\ exists evs,
       log (snd (search_with primary w p s)) = log s ++ evs
       /\ forall k v, ~ In (CacheSet k v) evs.
Proof.
  intros Hq Hmiss Hp Hg Ho.
  rewrite (web_items_empty _ _ Hg) in Ho.
  rewrite (search_fallback _ _ _ _ _ Hq Hmiss Hp Hg), Ho. tidy.
  split; [reflexivity|]. split; [reflexivity|].
  eexists. split; [reflexivity|].
  intros k v H. unfold web_events in H.
  destruct H as [H|[H|H]]; try discriminate.
  rewrite !in_app_iff in H.
  destruct H as [[H|H]|[H|H]].
  - apply googleSearch_trace in H as [H|H]; discriminate.
  - destruct (result (googleSearch w q)); cbn in H;
      [destruct H as [H|[]]; discriminate|contradiction].
  - apply openaiChatAnswer_trace in H as [H|[req H]]; discriminate.
  - destruct H as [H|[]]; discriminate.
Qed.

(** *** The paths through the handler *)

Lemma not_stale {V} (e : LRU.entry V) t :
  t <= LRU.start e + LRU.ttl -> LRU.isStale t e = false.
Proof. intros H. unfold LRU.isStale. apply N.ltb_ge. lia. Qed.

Lemma get_live {V} (c : LRU.t V) t k e :
  LRU.find c k = Some e -> LRU.isStale t e = false ->
  LRU.has c t k = true /\
  LRU.get c t k = (Some (LRU.val e), e :: LRU.remove c k).
Proof.
  intros Hf Hs. unfold LRU.has, LRU.get. now rewrite Hf, Hs.
Qed.

Lemma search_rejects primary w p s :
  query_text p = inr [] ->
  search_with primary w p s
  = ({| code := 400; payload := ErrorText (js "Missing ?q=") |}, s).
Proof.
  intros Hq. handler_unfold. now rewrite Hq.
Qed.

Lemma search_throws primary w p s err :
  query_text p = inl err ->
  search_with primary w p s
  = ({| code := 500; payload := ErrorOf err |},
     HandlerM.record [ConsoleError err] s).
Proof.
  intros Hq. handler_unfold. now rewrite Hq.
Qed.

Lemma search_hit primary w p q s e :
  query_of p q ->
  LRU.find (cache s) q = Some e ->
  LRU.isStale (now s) e = false ->
  search_with primary w p s =
    (json_reply (SearchBody (Some (LRU.val e)) true),
     {| cache := e :: LRU.remove (cache s) q;
        now := now s;
        log := log s ++ [CacheHas q; CacheGet q] |}).
Proof.
  intros [Hq Hne] Hf Hs. apply truthy_nonempty in Hne.
  destruct (get_live _ _ _ _ Hf Hs) as [Hh Hg].
  handler_unfold. rewrite Hq, Hne. cbn. rewrite Hh. cbn. rewrite Hg.
  tidy. reflexivity.
Qed.

Lemma search_primary primary w p q s :
  query_of p q ->
  LRU.has (cache s) (now s) q = false ->
  primary q <> [] ->
  search_with primary w p s =
    (json_reply (SearchBody (Some (FromPrimary (primary q))) false),
     {| cache := LRU.set (cache s) (now s) q (FromPrimary (primary q));
        now := now s;
        log := log s ++ [CacheHas q; CallPrimary q;
                         CacheSet q (FromPrimary (primary q))] |}).
Proof.
  intros [Hq Hne] Hmiss Hi. apply truthy_nonempty in Hne.
  handler_unfold. rewrite Hq, Hne. cbn. rewrite Hmiss. cbn.
  destruct (primary q); [congruence|]. tidy. reflexivity.
Qed.

Lemma search_web primary w p q s items :
  query_of p q ->
  LRU.has (cache s) (now s) q = false ->
  primary q = [] ->
  result (googleSearch w q) = inr items ->
  items <> [] ->
  let t := now s + elapsed (googleSearch w q) in
  search_with primary w p s =
    (json_reply (SearchBody (Some (FromGoogle items)) false),
     {| cache := LRU.set (cache s) t q (FromGoogle items);
        now := t;
        log := log s ++ [CacheHas q; CallPrimary q]
                 ++ trace (googleSearch w q)
                 ++ [CacheSet q (FromGoogle items)] |}).
Proof.
  intros Hq Hmiss Hp Hg Hi t. subst t.
  rewrite (search_miss _ _ _ _ _ Hq Hmiss Hp).
  handler_unfold. unfold after_primary. rewrite Hg.
  destruct items; [congruence|]. tidy. reflexivity.
Qed.

Lemma search_with_path primary w p s :
  search_path primary w p s
    (fst (search_with primary w p s)) (snd (search_with primary w p s)).
Proof.
  destruct (query_text p) as [err|q] eqn:Hq.
  { rewrite (search_throws _ _ _ _ _ Hq). now constructor. }
  destruct q as [|c q'] eqn:Eq.
  { rewrite (search_rejects _ _ _ _ Hq). now constructor. }
  rewrite <- Eq in *.
  assert (Hquery : query_of p q) by (split; [exact Hq|congruence]).
  clear Eq Hq c q'.
  destruct (LRU.has (cache s) (now s) q) eqn:Hh.
  { destruct (has_true _ _ _ Hh) as (e & Hf & Hs).
    rewrite (search_hit _ _ _ _ _ _ Hquery Hf Hs). now apply path_hit. }
  destruct (primary q) as [|i items] eqn:Hp.
  2:{ assert (Hn : primary q <> []) by congruence.
      rewrite (search_primary _ _ _ _ _ Hquery Hh Hn). now apply path_primary. }
  destruct (result (googleSearch w q)) as [gerr|[|g items]] eqn:Hg.
  3:{ assert (Hn : g :: items <> []) by congruence.
      rewrite (search_web _ _ _ _ _ _ Hquery Hh Hp Hg Hn).
      now apply path_web. }
  all: assert (Hfall : (exists e, result (googleSearch w q) = inl e)
                       \/ result (googleSearch w q) = inr [])
         by (rewrite Hg; eauto).
  all: rewrite (search_fallback _ _ _ _ _ Hquery Hh Hp Hfall).
  all: destruct (result (openaiChatAnswer w q [])) as [err|ai] eqn:Ho.
  all: unfold HandlerM.record; tidy.
  all: try (now apply (path_failed _ _ _ _ _ _ Hquery Hh Hp Hfall Ho)).
  all: now apply (path_generated _ _ _ _ _ _ Hquery Hh Hp Hfall Ho).
Qed.

(** *** Rejected input *)

Lemma blank_query_text p :
  blank (GetSearch p) -> query_text p = inr [].
Proof.
  intros [->|(raw & -> & H)]; [reflexivity|].
  simpl. destruct raw; [reflexivity|]. simpl JsString.truthy. cbv iota.
  now rewrite H.
Qed.

Lemma blank_prompt_text body :
  blank (PostAi body) -> cleanText (Js.get_opt body Js.K_prompt) = inr [].
Proof.
  intros [->|(raw & -> & H)]; [reflexivity|].
  unfold cleanText, Js.or_else. simpl Js.truthy.
  destruct raw; [reflexivity|]. simpl. now rewrite H.
Qed.

(** C9. A request whose query or prompt is missing or trims to the empty
    string is answered 400 and leaves the server exactly as it was: nothing
    is logged, so no adapter ran, no request went upstream and the cache was
    neither read nor written. *)
Theorem blank_input_rejected w req s :
  blank req ->
  app w req s = (rejection req, s).
Proof.
  destruct req as [p|body]; intros H; simpl.
  - unfold search. now rewrite (search_rejects _ _ _ _ (blank_query_text _ H)).
  - handler_unfold. now rewrite (blank_prompt_text _ H).
Qed.

(** *** Cache hits *)

(** C4. When a search request has been answered 200, the cache holds an
    entry for its query with the outcome of that reply. A later request for
    the same query, made while this entry is still the entry of the query
    and not older than the time to live, is answered with the same outcome
    and the flag [cached]; it only tests and reads the cache: no adapter is
    invoked, whatever the upstream services would answer by then. *)
Theorem search_cache_hit primary w p q s :
  query_text p = inr q ->
  code (fst (search_with primary w p s)) = 200 ->
  exists e c,
    payload (fst (search_with primary w p s)) = SearchBody (Some (LRU.val e)) c
    /\ LRU.find (cache (snd (search_with primary w p s))) q = Some e
    /\ forall w' s',
         LRU.find (cache s') q = Some e ->
         now s' <= LRU.start e + LRU.ttl ->
         search_with primary w' p s' =
           (json_reply (SearchBody (Some (LRU.val e)) true),
            {| cache := e :: LRU.remove (cache s') q;
               now := now s';
               log := log s' ++ [CacheHas q; CacheGet q] |}).
Proof.
  intros Hq Hc.
  pose proof (search_with_path primary w p s) as P.
  destruct (search_with primary w p s) as [r1 s1]. cbn [fst snd] in *.
  assert (Hit : forall e, query_of p q -> forall w' s',
             LRU.find (cache s') q = Some e ->
             now s' <= LRU.start e + LRU.ttl ->
             search_with primary w' p s' =
               (json_reply (SearchBody (Some (LRU.val e)) true),
                {| cache := e :: LRU.remove (cache s') q;
                   now := now s';
                   log := log s' ++ [CacheHas q; CacheGet q] |})).
  { intros e Hquery w' s' Hf Ht.
    apply search_hit; auto using not_stale. }
  destruct P as [H|err H|q0 e [H Hne] Hf Hs|q0 [H Hne] Hh Hp
                |q0 items [H Hne] Hh Hp Hg Hi|q0 ai [H Hne] Hh Hp Hg Ho
                |q0 err [H Hne] Hh Hp Hg Ho];
    try discriminate Hc;
    assert (q0 = q) by congruence; subst q0.
  - exists e, true. split; [reflexivity|]. split; [|now apply Hit].
    cbn. pose proof (find_key _ _ _ Hf) as Hk. now rewrite Hk, eqb_refl.
  - exists {| LRU.key := q; LRU.val := FromPrimary (primary q);
              LRU.start := now s |}, false.
    split; [reflexivity|]. split; [apply find_set|now apply Hit].
  - exists {| LRU.key := q; LRU.val := FromGoogle items;
              LRU.start := now s + elapsed (googleSearch w q) |}, false.
    split; [reflexivity|]. split; [apply find_set|now apply Hit].
  - exists {| LRU.key := q; LRU.val := FromOpenai (text ai);
              LRU.start := now s + elapsed (googleSearch w q)
                           + elapsed (openaiChatAnswer w q []) |}, false.
    split; [reflexivity|]. split; [apply find_set|now apply Hit].
Qed.

(** *** Reachable states *)

Lemma web_events_no_store w q k v : ~ In (CacheSet k v) (web_events w q).
Proof.
  unfold web_events. rewrite in_app_iff. intros [H|H].
  - apply googleSearch_trace in H as [H|H]; discriminate.
  - destruct (result (googleSearch w q)); cbn in H;
      [destruct H as [H|[]]; discriminate|contradiction].
Qed.

Lemma google_no_store w q k v : ~ In (CacheSet k v) (trace (googleSearch w q)).
Proof.
  intros H. apply googleSearch_trace in H as [H|H]; discriminate.
Qed.

Lemma openai_no_store w q context k v :
  ~ In (CacheSet k v) (trace (openaiChatAnswer w q context)).
Proof.
  intros H. apply openaiChatAnswer_trace in H as [H|[req H]]; discriminate.
Qed.

Lemma search_keeps_primary_free w p s :
  primary_free s -> primary_free (snd (search w p s)).
Proof.
  intros [Hc Hl]. unfold search.
  pose proof (search_with_path primarySearch w p s) as P.
  destruct (search_with primarySearch w p s) as [r1 s1]. cbn [fst snd] in P |- *.
  destruct P as [H|err H|q e Hq Hf Hs|q Hq Hh Hp
                |q items Hq Hh Hp Hg Hi|q ai Hq Hh Hp Hg Ho
                |q err Hq Hh Hp Hg Ho];
    try (now elim Hp); split; cbn [cache log HandlerM.record].
  all: try exact Hc.
  all: try (intros x Hx; apply set_In in Hx as [->|Hx]; [reflexivity|auto]).
  all: try (intros x [<-|Hx]; eauto using find_In, remove_In).
  all: intros k v Hx; rewrite ?in_app_iff in Hx; cbn [In] in Hx.
  all: repeat match type of Hx with
              | _ \/ _ => destruct Hx as [Hx|Hx]
              end; eauto; try discriminate; try contradiction.
  all: try (now inversion Hx).
  all: try (now elim (google_no_store _ _ _ _ Hx)).
  all: try (now elim (web_events_no_store _ _ _ _ Hx)).
  all: try (now elim (openai_no_store _ _ _ _ _ Hx)).
Qed.

(** The assistant route does not use the cache at all. *)
Lemma ai_effect w body s :
  cache (snd (ai w body s)) = cache s
  /\ exists evs, log (snd (ai w body s)) = log s ++ evs
                 /\ forall k v, ~ In (CacheSet k v) evs.
Proof.
  handler_unfold.
  destruct (cleanText (Js.get_opt body Js.K_prompt)) as [e|prompt]; cbn.
  { split; [reflexivity|]. eexists; split; [reflexivity|].
    intros k v [H|[]]; discriminate. }
  destruct (JsString.truthy prompt); cbn.
  2:{ split; [reflexivity|]. exists []. rewrite app_nil_r. split; auto. }
  destruct (fetched (upstream w (ai_request w prompt))) as [e|r]; cbn.
  { split; [reflexivity|]. rewrite <- app_assoc. eexists; split; [reflexivity|].
    intros k v [H|[H|[]]]; discriminate. }
  destruct (ok r); cbn.
  2:{ destruct (body_text r) as [e|txt]; cbn.
      all: split; [reflexivity|]; rewrite <- app_assoc.
      all: eexists; split; [reflexivity|].
      all: intros k v [H|[H|[]]]; discriminate. }
  destruct (body_json r) as [e|data]; cbn.
  { split; [reflexivity|]. rewrite <- app_assoc. eexists; split; [reflexivity|].
    intros k v [H|[H|[]]]; discriminate. }
  destruct (cleanText (first_content data)) as [e|reply]; cbn.
  { split; [reflexivity|]. rewrite <- app_assoc. eexists; split; [reflexivity|].
    intros k v [H|[H|[]]]; discriminate. }
  split; [reflexivity|]. eexists; split; [reflexivity|].
  intros k v [H|[]]; discriminate.
Qed.

Lemma reachable_primary_free s : reachable s -> primary_free s.
Proof.
  induction 1 as [t|w req s _ IH|d s _ IH].
  - split; cbn; tauto.
  - destruct req as [p|body]; cbn [app].
    + now apply search_keeps_primary_free.
    + destruct IH as [Hc Hl].
      destruct (ai_effect w body s) as (Ec & evs & El & Hn).
      split; [now rewrite Ec|].
      intros k v Hx. rewrite El, in_app_iff in Hx.
      destruct Hx as [Hx|Hx]; [eauto|now elim (Hn k v)].
  - exact IH.
Qed.

(** C10. The index stub returns the empty sequence for every query. So in
    every state the server can reach, a search request never stores a primary
    outcome, and a request answered 200 carries the outcome of the web search
    or of the generative adapter, also when it is served from the cache. *)
Theorem primary_never_answers w p s :
  reachable s ->
  (forall q, primarySearch q = [])
  /\ (forall k items,
        ~ In (CacheSet k (FromPrimary items)) (log (snd (search w p s))))
  /\ (code (fst (search w p s)) = 200 ->
      exists o c,
        payload (fst (search w p s)) = SearchBody (Some o) c
        /\ ((exists items, o = FromGoogle items)
            \/ (exists answer, o = FromOpenai answer))).
Proof.
  intros Hr. apply reachable_primary_free in Hr.
  split; [reflexivity|]. split.
  { destruct (search_keeps_primary_free w p s Hr) as [_ Hl].
    intros k items Hx. apply Hl in Hx. discriminate. }
  intros Hc. destruct Hr as [Hcache _]. unfold search in *.
  pose proof (search_with_path primarySearch w p s) as P.
  destruct (search_with primarySearch w p s) as [r1 s1]. cbn [fst snd] in *.
  destruct P as [H|err H|q e Hq Hf Hs|q Hq Hh Hp
                |q items Hq Hh Hp Hg Hi|q ai Hq Hh Hp Hg Ho
                |q err Hq Hh Hp Hg Ho];
    try discriminate Hc; try (now elim Hp).
  - exists (LRU.val e), true. split; [reflexivity|].
    specialize (Hcache e (find_In _ _ _ Hf)).
    destruct (LRU.val e); [discriminate|eauto|eauto].
  - exists (FromGoogle items), false. eauto.
  - exists (FromOpenai (text ai)), false. eauto.
Qed.

(** ** The web search adapter *)

Lemma map_exn_length {A B} (f : A -> exn + B) xs ys :
  map_exn f xs = inr ys -> List.length ys = List.length xs.
Proof.
  revert ys. induction xs as [|x xs IH]; intros ys; simpl.
  - now intros [= <-].
  - destruct (f x) as [e|y]; simpl; [discriminate|].
    destruct (map_exn f xs) as [e|ys']; simpl; [discriminate|].
    intros [= <-]. simpl. f_equal. now apply IH.
Qed.

Lemma map_exn_Forall {A B} (f : A -> exn + B) (P : B -> Prop) xs ys :
  (forall x y, f x = inr y -> P y) ->
  map_exn f xs = inr ys -> Forall P ys.
Proof.
  intros Hf. revert ys. induction xs as [|x xs IH]; intros ys; simpl.
  - intros [= <-]. constructor.
  - destruct (f x) as [e|y] eqn:E; simpl; [discriminate|].
    destruct (map_exn f xs) as [e|ys']; simpl; [discriminate|].
    intros [= <-]. constructor; eauto.
Qed.

Lemma google_item_source it i :
  google_item it = inr i -> source i = js "google".
Proof.
  unfold google_item. destruct it; cbn; try discriminate; now intros [= <-].
Qed.

(** C6, as stated, fails: the adapter asks the service for five hits but
    maps every hit of the answer, so a service that answers with six gives
    six items. *)
Lemma googleSearch_six_items :
  exists items,
    result (googleSearch (sample_world 6 JNull) (js "paris")) = inr items
    /\ ~ (List.length items <= 5)%nat.
Proof.
  eexists. split; [vm_compute; reflexivity|]. simpl. lia.
Qed.

(** C6, amended. A successful web search sent one request asking for five
    hits ([num=5]) and returns one item per element of the [items] array of
    the answer, in order, each tagged [google]; so it has at most five items
    whenever the service sent at most the five it was asked for. *)
Theorem googleSearch_items w q items :
  result (googleSearch w q) = inr items ->
  exists res data found elems,
    fetched (upstream w (GoogleGet (GOOGLE_API_KEY w) (GOOGLE_CX w) q (js "5")))
    = inr res
    /\ body_json res = inr data
    /\ Js.get (VJson data) Js.K_items = inr found
    /\ as_array (Js.or_else found (VJson (JArr []))) = inr elems
    /\ map_exn google_item elems = inr items
    /\ List.length items = List.length elems
    /\ ((List.length elems <= 5)%nat -> (List.length items <= 5)%nat)
    /\ Forall (fun it => source it = js "google") items.
Proof.
  unfold googleSearch. intros H.
  apply bind_result in H as (_ & _ & H).
  destruct (negb (JsString.truthy (GOOGLE_API_KEY w))
            || negb (JsString.truthy (GOOGLE_CX w))); [discriminate|].
  apply bind_result in H as (res & Hres & H).
  destruct (negb (ok res)); [discriminate|].
  apply bind_result in H as (data & Hdata & H).
  apply bind_result in H as (found & Hfound & H).
  apply bind_result in H as (elems & Helems & H).
  cbn in Hres, Hdata, Hfound, Helems, H.
  exists res, data, found, elems.
  pose proof (map_exn_length _ _ _ H) as Hlen.
  repeat split; auto; [lia|].
  eapply map_exn_Forall; [|exact H]. apply google_item_source.
Qed.

(** ** The generative adapter *)

Lemma falsy_content_is_empty (v : value) :
  Js.truthy v = false -> cleanText v = inr [].
Proof.
  intros Hf. unfold cleanText, Js.or_else. now rewrite Hf.
Qed.

(** C7, as stated, fails: a 2xx answer whose JSON has none of the expected
    fields is not a failure but a success with the empty answer. *)
Lemma openaiChatAnswer_empty_success :
  let w := {| OPENAI_API_KEY := js "sk-test";
              GOOGLE_API_KEY := [];
              GOOGLE_CX := [];
              upstream := fun _ => json_response (JObj []) |} in
  result (openaiChatAnswer w (js "capital of France") [])
  = inr {| text := []; raw := JObj [] |}.
Proof. vm_compute. reflexivity. Qed.

(** C7, amended. An invocation either fails or succeeds with an answer. It
    succeeds exactly when the key is set, the context renders, and the
    service answers 2xx with a JSON body whose
    [choices[0].message.content], taken as the empty string when absent or
    [null], can be turned into text; the answer is that text, trimmed. So the
    answer is empty whenever that content is absent or falsy: a 2xx JSON
    answer of another shape is an empty success; a body that is not JSON is
    a failure. *)
Theorem openaiChatAnswer_outcome w q context ai :
  (result (openaiChatAnswer w q context) = inr ai <->
   OPENAI_API_KEY w <> []
   /\ exists ctx res,
        map_exn context_message context = inr ctx
        /\ fetched (upstream w (answer_request w q ctx)) = inr res
        /\ ok res = true
        /\ body_json res = inr (raw ai)
        /\ cleanText (first_content (raw ai)) = inr (text ai))
  /\ (Js.truthy (first_content (raw ai)) = false ->
      cleanText (first_content (raw ai)) = inr []).
Proof.
  split.
  2:{ apply falsy_content_is_empty. }
  unfold openaiChatAnswer, answer_request. split.
  - intros H.
    apply bind_result in H as (_ & _ & H).
    destruct (JsString.truthy (OPENAI_API_KEY w)) eqn:Hk; [|discriminate].
    cbn [negb] in H.
    apply bind_result in H as (ctx & Hctx & H).
    apply bind_result in H as (res & Hres & H).
    destruct (ok res) eqn:Hok; cbn [negb] in H.
    2:{ apply bind_result in H as (txt & _ & H). discriminate H. }
    apply bind_result in H as (data & Hdata & H).
    apply bind_result in H as (t & Ht & H).
    cbn in Hctx, Hres, Hdata, Ht, H. injection H as <-. cbn [text raw].
    split; [now apply truthy_nonempty|]. exists ctx, res. auto.
  - intros (Hk & ctx & res & Hctx & Hres & Hok & Hdata & Ht).
    apply truthy_nonempty in Hk. destruct ai as [t data]. cbn [text raw] in *.
    unfold RunM.bind, RunM.emit, RunM.lift, RunM.fetch, RunM.ret, RunM.throw.
    cbn. rewrite Hk. cbn. rewrite Hctx. cbn. rewrite Hres. cbn.
    rewrite Hok. cbn. rewrite Hdata. cbn. rewrite Ht. reflexivity.
Qed.

(** ** The assistant route *)

(** C8, as stated, fails, twice over. The route sends a request of its own,
    with another system message and token limit than the adapter's, so a
    service may answer the two differently; and it does not test the key, so
    without a key it still calls the service where the adapter fails at once
    with its not-configured error. *)
Lemma ai_is_not_the_adapter :
  let w := {| OPENAI_API_KEY := js "sk-test"; GOOGLE_API_KEY := [];
              GOOGLE_CX := []; upstream := token_echo |} in
  let w0 := {| OPENAI_API_KEY := []; GOOGLE_API_KEY := [];
               GOOGLE_CX := []; upstream := unauthorized |} in
  (fst (ai w hello start) = json_reply (AiBody (js "I") (js "1000"))
   /\ assistant_reply (result (openaiChatAnswer w (js "hello") []))
      = json_reply (AiBody (js "I") (js "800")))
  /\ (result (openaiChatAnswer w0 (js "hello") [])
      = inl (Error (js "OPENAI_API_KEY not set."))
      /\ trace (openaiChatAnswer w0 (js "hello") [])
         = [CallOpenai (js "hello") []]
      /\ ai w0 hello start
         = ({| code := 500;
               payload := ErrorOf (Error (js "OpenAI error 401: missing bearer token")) |},
            {| cache := LRU.empty;
               now := 80;
               log := [Fetch (ai_request w0 (js "hello"));
                       ConsoleError (Error (js "OpenAI error 401: missing bearer token"))] |})).
Proof. vm_compute. repeat split. Qed.

(** C8, amended. For a non-empty prompt, with the key configured, the route
    sends one chat request of its own and reads the answer as the adapter
    does. So whenever the service answers that request as it answers the
    request of the adapter invoked on the prompt with no context, the route
    replies with the adapter's answer, and fails, with the adapter's error,
    exactly when the adapter invocation fails. *)
Theorem ai_agrees_with_adapter w body prompt s :
  cleanText (Js.get_opt body Js.K_prompt) = inr prompt ->
  prompt <> [] ->
  OPENAI_API_KEY w <> [] ->
  fetched (upstream w (ai_request w prompt))
  = fetched (upstream w (answer_request w prompt [])) ->
  fst (ai w body s)
  = assistant_reply (result (openaiChatAnswer w prompt [])).
Proof.
  intros Hp Hne Hk Hu.
  apply truthy_nonempty in Hne. apply truthy_nonempty in Hk.
  unfold openaiChatAnswer, answer_request in *.
  unfold RunM.bind, RunM.emit, RunM.lift, RunM.fetch, RunM.ret, RunM.throw.
  handler_unfold. unfold RunM.fetch.
  rewrite Hp. cbn. rewrite Hne, Hk. cbn. cbn in Hu. rewrite Hu.
  match goal with
  | |- context [fetched (upstream w ?r)] =>
      destruct (fetched (upstream w r)) as [err|res]
  end; cbn; [reflexivity|].
  destruct (ok res); cbn.
  2:{ destruct (body_text res) as [err|txt]; reflexivity. }
  destruct (body_json res) as [err|data]; cbn; [reflexivity|].
  destruct (cleanText (first_content data)) as [err|t]; reflexivity.
Qed.

(** * The properties at sample inputs *)

(** C1 at a server without search credentials whose chat service answers. *)
Lemma search_absorbs_web_failure_witness :
  fst (search (without_google (sample_world 0 (JStr (js " Paris ")))) france start)
  = json_reply (SearchBody (Some (FromOpenai (js "Paris"))) false).
Proof.
  unfold search.
  erewrite (search_absorbs_web_failure primarySearch
              (without_google (sample_world 0 (JStr (js " Paris "))))
              france france_query start); cycle 1.
  - split; [vm_compute; reflexivity|discriminate].
  - reflexivity.
  - reflexivity.
  - vm_compute. reflexivity.
  - vm_compute. reflexivity.
  - reflexivity.
Defined.

(** C2 at a server whose search service finds nothing. *)
Lemma search_reaches_generative_witness :
  web_items (sample_world 0 (JStr (js "No idea."))) france_query = []
  /\ fst (search (sample_world 0 (JStr (js "No idea."))) france start)
     = json_reply (SearchBody (Some (FromOpenai (js "No idea."))) false).
Proof.
  destruct (search_reaches_generative primarySearch
              (sample_world 0 (JStr (js "No idea."))) france france_query start)
    as (Hi & _ & _ & Hr).
  - split; [vm_compute; reflexivity|discriminate].
  - reflexivity.
  - reflexivity.
  - right. vm_compute. reflexivity.
  - split; [exact Hi|]. unfold search. rewrite Hr. vm_compute. reflexivity.
Defined.

(** C3 at an index that knows a document. *)
Lemma search_primary_short_circuit_witness :
  search_with one_document (sample_world 3 JNull) france start
  = (json_reply (SearchBody (Some (FromPrimary (one_document france_query))) false),
     {| cache := LRU.set LRU.empty 0 france_query
                   (FromPrimary (one_document france_query));
        now := 0;
        log := [CacheHas france_query; CallPrimary france_query;
                CacheSet france_query (FromPrimary (one_document france_query))] |}).
Proof.
  apply (search_primary_short_circuit one_document (sample_world 3 JNull)
           france france_query start (one_document france_query)).
  - split; [vm_compute; reflexivity|discriminate].
  - reflexivity.
  - reflexivity.
  - discriminate.
Defined.

(** C4: a search answered from the web, asked again four minutes later, when
    the search service would find nothing any more. *)
Lemma search_cache_hit_witness :
  let first := search (sample_world 1 JNull) france start in
  exists items,
    payload (fst first) = SearchBody (Some (FromGoogle items)) false
    /\ search (sample_world 0 JNull) france (later 240000 (snd first))
       = (json_reply (SearchBody (Some (FromGoogle items)) true),
          {| cache := cache (snd first);
             now := now (snd first) + 240000;
             log := log (snd first)
                      ++ [CacheHas france_query; CacheGet france_query] |}).
Proof.
  intros first.
  destruct (search_cache_hit primarySearch (sample_world 1 JNull)
              france france_query start)
    as (e & c & Hpay & Hfind & Hnext).
  - vm_compute. reflexivity.
  - reflexivity.
  - fold (search (sample_world 1 JNull) france start) in Hpay, Hfind.
    fold first in Hpay, Hfind.
    vm_compute in Hfind. injection Hfind as <-.
    eexists. split; [vm_compute; reflexivity|].
    unfold search.
    rewrite (Hnext (sample_world 0 JNull) (later 240000 (snd first))).
    + vm_compute. reflexivity.
    + vm_compute. reflexivity.
    + vm_compute. discriminate.
Defined.

(** C5 at a server without the generative credential whose search service
    finds nothing. *)
Lemma search_generative_failure_witness :
  fst (search (without_openai (sample_world 0 JNull)) france start)
  = {| code := 500; payload := ErrorOf (Error (js "OPENAI_API_KEY not set.")) |}
  /\ cache (snd (search (without_openai (sample_world 0 JNull)) france start))
     = LRU.empty.
Proof.
  destruct (search_generative_failure primarySearch
              (without_openai (sample_world 0 JNull)) france france_query start
              (Error (js "OPENAI_API_KEY not set.")))
    as (Hr & Hc & _).
  - split; [vm_compute; reflexivity|discriminate].
  - reflexivity.
  - reflexivity.
  - right. vm_compute. reflexivity.
  - vm_compute. reflexivity.
  - split; [exact Hr|exact Hc].
Defined.

(** C6 at a search service that answers with three hits. *)
Lemma googleSearch_items_witness :
  exists items,
    result (googleSearch (sample_world 3 JNull) france_query) = inr items
    /\ (List.length items <= 5)%nat
    /\ Forall (fun it => source it = js "google") items.
Proof.
  destruct (result (googleSearch (sample_world 3 JNull) france_query))
    as [err|items] eqn:H; [vm_compute in H; discriminate|].
  exists items. split; [reflexivity|].
  destruct (googleSearch_items (sample_world 3 JNull) france_query items H)
    as (res & data & found & elems & Hres & Hdata & Hfound & Helems
        & _ & _ & Hcap & Hall).
  split; [|exact Hall]. apply Hcap.
  vm_compute in Hres. injection Hres as <-.
  vm_compute in Hdata. injection Hdata as <-.
  vm_compute in Hfound. injection Hfound as <-.
  vm_compute in Helems. injection Helems as <-.
  simpl. lia.
Defined.

(** C7 at a chat service that answers with padded text. *)
Lemma openaiChatAnswer_outcome_witness :
  result (openaiChatAnswer (sample_world 0 (JStr (js " Paris "))) france_query [])
  = inr {| text := js "Paris"; raw := chat_answer (JStr (js " Paris ")) |}.
Proof.
  apply (proj1 (openaiChatAnswer_outcome
                  (sample_world 0 (JStr (js " Paris "))) france_query []
                  {| text := js "Paris";
                     raw := chat_answer (JStr (js " Paris ")) |})).
  split; [discriminate|].
  exists [], {| status := 200; body_text := inr [];
                body_json := inr (chat_answer (JStr (js " Paris "))) |}.
  repeat split; vm_compute; reflexivity.
Defined.

(** C8 at a chat service that answers every request alike. *)
Lemma ai_agrees_with_adapter_witness :
  fst (ai (sample_world 0 (JStr (js " Hi! "))) hello start)
  = json_reply (AiBody (js "I") (js "Hi!")).
Proof.
  rewrite (ai_agrees_with_adapter (sample_world 0 (JStr (js " Hi! "))) hello
             (js "hello") start).
  - vm_compute. reflexivity.
  - vm_compute. reflexivity.
  - discriminate.
  - discriminate.
  - reflexivity.
Defined.

(** C9 at a query of blanks and at a body without prompt. *)
Lemma blank_input_rejected_witness :
  app (sample_world 1 JNull) (GetSearch (QText (js "   "))) start
  = ({| code := 400; payload := ErrorText (js "Missing ?q=") |}, start)
  /\ app (sample_world 1 JNull) (PostAi (VJson (JObj []))) start
     = ({| code := 400; payload := ErrorText (js "prompt required") |}, start).
Proof.
  split.
  - apply (blank_input_rejected (sample_world 1 JNull)
             (GetSearch (QText (js "   "))) start).
    right. exists (js "   "). split; reflexivity.
  - apply (blank_input_rejected (sample_world 1 JNull)
             (PostAi (VJson (JObj []))) start).
    left. reflexivity.
Defined.

(** C10 at the server that has answered one search from the web and is asked
    the same again. *)
Lemma primary_never_answers_witness :
  let s := snd (app (sample_world 1 JNull) (GetSearch france) start) in
  code (fst (search (sample_world 0 JNull) france s)) = 200
  /\ exists o c,
       payload (fst (search (sample_world 0 JNull) france s)) = SearchBody (Some o) c
       /\ ((exists items, o = FromGoogle items)
           \/ (exists answer, o = FromOpenai answer)).
Proof.
  intros s. split; [vm_compute; reflexivity|].
  apply (primary_never_answers (sample_world 0 JNull) france s).
  - apply reach_request. apply reach_start.
  - vm_compute. reflexivity.
Defined.

(** * Further properties of the code *)

(** ** [trim] and [cleanText] *)

Lemma trimStart_clean s : starts_clean (JsString.trimStart s).
Proof.
  induction s as [|c s IH]; simpl; [exact I|].
  destruct (JsString.is_white_space c) eqn:E; [exact IH|exact E].
Qed.

Lemma trimStart_id s : starts_clean s -> JsString.trimStart s = s.
Proof.
  destruct s as [|c s]; simpl; [reflexivity|]. now intros ->.
Qed.

Lemma trimStart_snoc l c :
  JsString.is_white_space c = false ->
  exists l', JsString.trimStart (l ++ [c]) = l' ++ [c].
Proof.
  intros Hc. induction l as [|x l IH]; simpl.
  - rewrite Hc. now exists [].
  - destruct (JsString.is_white_space x); [exact IH|].
    now exists (x :: l).
Qed.

Lemma trimEnd_starts s : starts_clean s -> starts_clean (JsString.trimEnd s).
Proof.
  destruct s as [|c s]; intros H; unfold JsString.trimEnd; simpl; [exact I|].
  destruct (trimStart_snoc (List.rev s) c H) as [l' ->].
  rewrite rev_app_distr. exact H.
Qed.

Lemma trim_trimmed s : trimmed (JsString.trim s).
Proof.
  unfold JsString.trim. split.
  - apply trimEnd_starts, trimStart_clean.
  - unfold JsString.trimEnd. rewrite rev_involutive. apply trimStart_clean.
Qed.

Lemma trim_id s : trimmed s -> JsString.trim s = s.
Proof.
  intros [Hs He]. unfold JsString.trim, JsString.trimEnd.
  rewrite (trimStart_id s Hs), (trimStart_id _ He). apply rev_involutive.
Qed.

Lemma trim_idempotent s : JsString.trim (JsString.trim s) = JsString.trim s.
Proof. apply trim_id, trim_trimmed. Qed.

Lemma cleanText_inr v s :
  cleanText v = inr s -> trimmed s.
Proof.
  unfold cleanText. destruct (Js.call_toString _) as [e|x]; simpl;
    [discriminate|].
  intros [= <-]. apply trim_trimmed.
Qed.

(** X1. Whatever [cleanText] returns neither begins nor ends with white
    space, and cleaning it again gives it back. *)
Theorem cleanText_trimmed v s :
  cleanText v = inr s ->
  trimmed s /\ cleanText (VJson (JStr s)) = inr s.
Proof.
  intros H. pose proof (cleanText_inr _ _ H) as Ht. split; [exact Ht|].
  unfold cleanText, Js.or_else. simpl Js.truthy.
  destruct s as [|c s]; [reflexivity|]. simpl.
  now rewrite (trim_id _ Ht).
Qed.

(** Induction on JSON values, through the elements of arrays. *)
Lemma json_array_ind (P : json -> Prop) :
  P JNull ->
  (forall b, P (JBool b)) ->
  (forall r, P (JNum r)) ->
  (forall s, P (JStr s)) ->
  (forall elems, Forall P elems -> P (JArr elems)) ->
  (forall props, P (JObj props)) ->
  forall j, P j.
Proof.
  intros Hnull Hbool Hnum Hstr Harr Hobj.
  fix IH 1.
  intros [|b|r|s|elems|props];
    [apply Hnull|apply Hbool|apply Hnum|apply Hstr| |apply Hobj].
  apply Harr. induction elems as [|x rest IHrest]; constructor;
    [apply IH|exact IHrest].
Qed.

Lemma json_to_string_throws j e :
  Js.json_to_string j = inl e -> e = TypeError.
Proof.
  revert e. induction j as [|b|r|s|elems IH|props] using json_array_ind;
    intros e; simpl; try discriminate.
  - destruct b; discriminate.
  - revert e. induction IH as [|x rest Hx _ IHrest]; intros e;
      [discriminate|].
    destruct (match x with JNull => inr [] | _ => Js.json_to_string x end)
      as [ex|sx] eqn:Ex; simpl.
    + intros [= <-]. destruct x; try discriminate Ex; now apply Hx.
    + destruct rest as [|y rest]; [discriminate|].
      match goal with
      | |- bind_exn ?t _ = _ -> _ => destruct t as [er|sr] eqn:Er
      end; simpl; [|discriminate].
      intros [= <-]. now apply IHrest.
  - destruct (Js.has_own props _); [now intros [= <-]|discriminate].
Qed.

(** X2. [cleanText] can only fail with a [TypeError], and never does so on
    [undefined], [null], a boolean, a number or a string: a failure needs an
    array or an object. *)
Theorem cleanText_failure v e :
  cleanText v = inl e ->
  e = TypeError /\ is_array_or_object v.
Proof.
  unfold cleanText. intros H.
  destruct (Js.call_toString _) as [ex|x] eqn:E; simpl in H; [|discriminate].
  injection H as <-.
  destruct v as [|[|b|r|s|elems|props]|name]; try discriminate E.
  - destruct b; discriminate E.
  - unfold Js.or_else in E. simpl Js.truthy in E.
    destruct (negb _); discriminate E.
  - destruct s; discriminate E.
  - split; [|exact I]. apply (json_to_string_throws (JArr elems)). exact E.
  - split; [|exact I]. apply (json_to_string_throws (JObj props)). exact E.
Qed.

(** ** [googleSearch] *)

Arguments Js.get : simpl never.
Arguments Js.or_else : simpl never.
Arguments as_array : simpl never.
Arguments cleanText : simpl never.
Arguments first_content : simpl never.

Ltac run_unfold :=
  unfold RunM.bind, RunM.emit, RunM.lift, RunM.fetch, RunM.ret, RunM.throw.


(** What [googleSearch] makes of the answer to its request. *)
Lemma googleSearch_result w q :
  google_configured w = true ->
  result (googleSearch w q)
  = bind_exn (fetched (upstream w (google_request w q))) (fun res =>
      if negb (ok res)
      then inl (Error (js "Google API error " ++ JsString.of_N (status res)))
      else
        bind_exn (body_json res) (fun data =>
        bind_exn (Js.get (VJson data) Js.K_items) (fun items =>
        bind_exn (as_array (Js.or_else items (VJson (JArr [])))) (fun elems =>
        map_exn google_item elems)))).
Proof.
  unfold google_configured, googleSearch. run_unfold. intros H.
  apply andb_prop in H as [-> ->]. cbn.
  destruct (fetched _) as [e|res]; cbn; [reflexivity|].
  destruct (ok res); cbn; [|reflexivity].
  destruct (body_json res) as [e|data]; cbn; [reflexivity|].
  destruct (Js.get (VJson data) Js.K_items) as [e|items]; cbn; [reflexivity|].
  destruct (as_array _) as [e|elems]; cbn; reflexivity.
Qed.

(** X4. An answer outside the 2xx range makes [googleSearch] fail with the
    status in the message; the body is not looked at. *)
Theorem googleSearch_http_error w q res :
  google_configured w = true ->
  fetched (upstream w (google_request w q)) = inr res ->
  (status res < 200 \/ 299 < status res) ->
  result (googleSearch w q)
  = inl (Error (js "Google API error " ++ JsString.of_N (status res))).
Proof.
  intros Hc Hf Hs. rewrite (googleSearch_result _ _ Hc), Hf. cbn.
  assert (Hok : ok res = false).
  { unfold ok. destruct Hs as [Hs|Hs].
    - apply andb_false_intro1. apply N.leb_gt. exact Hs.
    - apply andb_false_intro2. apply N.leb_gt. exact Hs. }
  now rewrite Hok.
Qed.

Lemma google_item_of_hit it :
  it <> JNull -> google_item it = inr (item_of_hit it).
Proof.
  destruct it; try reflexivity. congruence.
Qed.

Lemma map_google_item hits :
  Forall (fun h => h <> JNull) hits ->
  map_exn google_item hits = inr (map item_of_hit hits).
Proof.
  induction 1 as [|h hits Hh _ IH]; [reflexivity|].
  simpl. now rewrite (google_item_of_hit _ Hh), IH.
Qed.

Lemma map_google_item_null hits :
  In JNull hits -> map_exn google_item hits = inl TypeError.
Proof.
  induction hits as [|h hits IH]; [contradiction|].
  intros [->|H]; [reflexivity|]. simpl.
  destruct (google_item h) as [e|i] eqn:E; simpl.
  - destruct h; try discriminate E. now injection E as <-.
  - now rewrite (IH H).
Qed.

(** X5. On a 2xx JSON answer whose [items] is an array, [googleSearch]
    returns one item per hit, in order, with the hit's [title], [snippet]
    and [link] ([undefined] where the hit has none) and the source
    [google]; unless a hit is [null], which makes it fail with a
    [TypeError]. *)
Theorem googleSearch_maps_hits w q res data hits :
  google_configured w = true ->
  fetched (upstream w (google_request w q)) = inr res ->
  ok res = true ->
  body_json res = inr data ->
  Js.get (VJson data) Js.K_items = inr (VJson (JArr hits)) ->
  (Forall (fun h => h <> JNull) hits ->
   result (googleSearch w q) = inr (map item_of_hit hits))
  /\ (In JNull hits -> result (googleSearch w q) = inl TypeError).
Proof.
  intros Hc Hf Hok Hd Hi.
  rewrite (googleSearch_result _ _ Hc), Hf. cbn. rewrite Hok. cbn.
  rewrite Hd. cbn. rewrite Hi. cbn.
  split; [apply map_google_item|apply map_google_item_null].
Qed.

(** X6. On a 2xx JSON answer without hits ([items] absent, [null] or
    otherwise falsy) [googleSearch] succeeds with the empty list; when
    [items] is truthy but not an array it fails with a [TypeError]. *)
Theorem googleSearch_without_hits w q res data items :
  google_configured w = true ->
  fetched (upstream w (google_request w q)) = inr res ->
  ok res = true ->
  body_json res = inr data ->
  Js.get (VJson data) Js.K_items = inr items ->
  (Js.truthy items = false -> result (googleSearch w q) = inr [])
  /\ (Js.truthy items = true ->
      (forall hits, items <> VJson (JArr hits)) ->
      result (googleSearch w q) = inl TypeError).
Proof.
  intros Hc Hf Hok Hd Hi.
  rewrite (googleSearch_result _ _ Hc), Hf. cbn. rewrite Hok. cbn.
  rewrite Hd. cbn. rewrite Hi. cbn. unfold Js.or_else.
  split; intros Ht; rewrite Ht; [reflexivity|].
  intros Hn. destruct items as [|[]|]; try reflexivity.
  now elim (Hn elems).
Qed.

(** ** [openaiChatAnswer] *)

(** What [openaiChatAnswer] makes of the answer to its request. *)
Lemma openaiChatAnswer_result w q context :
  JsString.truthy (OPENAI_API_KEY w) = true ->
  result (openaiChatAnswer w q context)
  = bind_exn (map_exn context_message context) (fun ctx =>
    bind_exn (fetched (upstream w (answer_request w q ctx))) (fun res =>
      if negb (ok res)
      then bind_exn (body_text res) (fun txt =>
             inl (Error (js "OpenAI error " ++ JsString.of_N (status res)
                           ++ js ": " ++ txt)))
      else
        bind_exn (body_json res) (fun data =>
        bind_exn (cleanText (first_content data)) (fun t =>
        inr {| text := t; raw := data |})))).
Proof.
  unfold openaiChatAnswer, answer_request. run_unfold. intros ->. cbn.
  destruct (map_exn context_message context) as [e|ctx]; cbn; [reflexivity|].
  destruct (fetched _) as [e|res]; cbn; [reflexivity|].
  destruct (ok res); cbn.
  - destruct (body_json res) as [e|data]; cbn; [reflexivity|].
    destruct (cleanText (first_content data)) as [e|t]; reflexivity.
  - destruct (body_text res) as [e|txt]; reflexivity.
Qed.

(** X7. [openaiChatAnswer] sends no request without a key (it fails at once
    with its configuration error) nor when a context item cannot be rendered
    (it fails with that error); otherwise it sends exactly one request: one
    system message, one message per context item, in order, and the query as
    the last message. *)
Theorem openaiChatAnswer_requests w q context :
  if JsString.truthy (OPENAI_API_KEY w)
  then match map_exn context_message context with
       | inr ctx =>
           trace (openaiChatAnswer w q context)
           = [CallOpenai q context;
              Fetch (OpenaiPost (js "Bearer " ++ OPENAI_API_KEY w)
                       (chat_body
                          (message (js "system") search_system_prompt
                             :: ctx ++ [message (js "user") q])
                          (js "800")))]
           /\ List.length ctx = List.length context
       | inl err =>
           openaiChatAnswer w q context
           = MkRun (inl err) [CallOpenai q context] 0
       end
  else openaiChatAnswer w q context
       = MkRun (inl (Error (js "OPENAI_API_KEY not set.")))
               [CallOpenai q context] 0.
Proof.
  unfold openaiChatAnswer. run_unfold.
  destruct (JsString.truthy (OPENAI_API_KEY w)); cbn; [|reflexivity].
  destruct (map_exn context_message context) as [e|ctx] eqn:Hctx; cbn;
    [reflexivity|].
  split; [|exact (map_exn_length _ _ _ Hctx)].
  destruct (fetched _) as [e|res]; cbn; [reflexivity|].
  destruct (ok res); cbn.
  - destruct (body_json res) as [e|data]; cbn; [reflexivity|].
    destruct (cleanText (first_content data)) as [e|t]; reflexivity.
  - destruct (body_text res) as [e|txt]; reflexivity.
Qed.

(** X8. An answer outside the 2xx range makes [openaiChatAnswer] fail with
    the status and the text of the body in the message. *)
Theorem openaiChatAnswer_http_error w q context ctx res txt :
  OPENAI_API_KEY w <> [] ->
  map_exn context_message context = inr ctx ->
  fetched (upstream w (answer_request w q ctx)) = inr res ->
  (status res < 200 \/ 299 < status res) ->
  body_text res = inr txt ->
  result (openaiChatAnswer w q context)
  = inl (Error (js "OpenAI error " ++ JsString.of_N (status res)
                  ++ js ": " ++ txt)).
Proof.
  intros Hk Hctx Hf Hs Ht. apply truthy_nonempty in Hk.
  rewrite (openaiChatAnswer_result _ _ _ Hk), Hctx. cbn. rewrite Hf. cbn.
  assert (Hok : ok res = false).
  { unfold ok. destruct Hs as [Hs|Hs].
    - apply andb_false_intro1. apply N.leb_gt. exact Hs.
    - apply andb_false_intro2. apply N.leb_gt. exact Hs. }
  rewrite Hok. cbn. now rewrite Ht.
Qed.

Lemma openaiChatAnswer_inr w q context ai :
  result (openaiChatAnswer w q context) = inr ai ->
  cleanText (first_content (raw ai)) = inr (text ai).
Proof.
  destruct (JsString.truthy (OPENAI_API_KEY w)) eqn:Hk.
  2:{ unfold openaiChatAnswer. run_unfold. rewrite Hk. discriminate. }
  rewrite (openaiChatAnswer_result _ _ _ Hk).
  destruct (map_exn context_message context) as [e|ctx]; cbn; [discriminate|].
  destruct (fetched _) as [e|res]; cbn; [discriminate|].
  destruct (ok res); cbn.
  2:{ destruct (body_text res); discriminate. }
  destruct (body_json res) as [e|data]; cbn; [discriminate|].
  destruct (cleanText (first_content data)) as [e|t] eqn:Ht; cbn;
    [discriminate|].
  now intros [= <-].
Qed.

(** X9. The answer text of a successful [openaiChatAnswer] neither begins
    nor ends with white space. *)
Theorem openaiChatAnswer_trimmed w q context ai :
  result (openaiChatAnswer w q context) = inr ai ->
  trimmed (text ai).
Proof.
  intros H. eapply cleanText_inr. eapply openaiChatAnswer_inr. exact H.
Qed.

(** ** The search handler, path by path *)

Lemma skipn_length_app {A} (l evs : list A) :
  skipn (List.length l) (l ++ evs) = evs.
Proof. induction l; simpl; auto. Qed.

Lemma new_events_app s c n evs :
  new_events s {| cache := c; now := n; log := log s ++ evs |} = evs.
Proof. apply skipn_length_app. Qed.

Lemma new_events_same s : new_events s s = [].
Proof.
  unfold new_events. rewrite <- (app_nil_r (log s)) at 2.
  apply skipn_length_app.
Qed.

Lemma googleSearch_trace_eq w q :
  trace (googleSearch w q)
  = CallGoogle q
      :: (if google_configured w then [Fetch (google_request w q)] else []).
Proof.
  unfold google_configured, googleSearch. run_unfold.
  destruct (JsString.truthy (GOOGLE_API_KEY w)); cbn; [|reflexivity].
  destruct (JsString.truthy (GOOGLE_CX w)); cbn; [|reflexivity].
  destruct (fetched _) as [e|res]; cbn; [reflexivity|].
  destruct (ok res); cbn; [|reflexivity].
  destruct (body_json res) as [e|data]; cbn; [reflexivity|].
  destruct (Js.get (VJson data) Js.K_items) as [e|items]; cbn; [reflexivity|].
  destruct (as_array _) as [e|elems]; reflexivity.
Qed.

Lemma openaiChatAnswer_trace_eq w q :
  trace (openaiChatAnswer w q [])
  = CallOpenai q []
      :: (if JsString.truthy (OPENAI_API_KEY w)
          then [Fetch (answer_request w q [])] else []).
Proof.
  unfold openaiChatAnswer, answer_request. run_unfold.
  destruct (JsString.truthy (OPENAI_API_KEY w)); cbn; [|reflexivity].
  destruct (fetched _) as [e|res]; cbn; [reflexivity|].
  destruct (ok res); cbn.
  - destruct (body_json res) as [e|data]; cbn; [reflexivity|].
    destruct (cleanText (first_content data)) as [e|t]; reflexivity.
  - destruct (body_text res) as [e|txt]; reflexivity.
Qed.

Lemma googleSearch_inr_configured w q items :
  result (googleSearch w q) = inr items -> google_configured w = true.
Proof.
  unfold google_configured, googleSearch. run_unfold.
  destruct (JsString.truthy (GOOGLE_API_KEY w)); cbn; [|discriminate].
  destruct (JsString.truthy (GOOGLE_CX w)); cbn; [reflexivity|discriminate].
Qed.

Ltac by_path primary w p s :=
  let P := fresh "P" in
  pose proof (search_with_path primary w p s) as P;
  destruct (search_with primary w p s) as [r1 s1]; cbn [fst snd] in *;
  destruct P as [Hq|err Hq|q e Hq Hf Hs|q Hq Hh Hp
                |q items Hq Hh Hp Hg Hi|q ai Hq Hh Hp Hg Ho
                |q err Hq Hh Hp Hg Ho].

(** X10. When the index has nothing and the web search finds something, the
    request is answered with exactly these items as the google outcome,
    stored under the query; the run is the cache test, the index call, the
    web search with its one request, and the store: the generative adapter
    is not invoked. *)
Theorem search_web_short_circuit primary w p q s items :
  query_of p q ->
  LRU.has (cache s) (now s) q = false ->
  primary q = [] ->
  result (googleSearch w q) = inr items ->
  items <> [] ->
  search_with primary w p s =
    (json_reply (SearchBody (Some (FromGoogle items)) false),
     {| cache := LRU.set (cache s) (now s + elapsed (googleSearch w q)) q
                   (FromGoogle items);
        now := now s + elapsed (googleSearch w q);
        log := log s ++ [CacheHas q; CallPrimary q; CallGoogle q;
                         Fetch (google_request w q);
                         CacheSet q (FromGoogle items)] |}).
Proof.
  intros Hq Hmiss Hp Hg Hi.
  rewrite (search_web _ _ _ _ _ _ Hq Hmiss Hp Hg Hi).
  rewrite googleSearch_trace_eq, (googleSearch_inr_configured _ _ _ Hg).
  reflexivity.
Qed.



Lemma web_events_calls w q : filter is_call (web_events w q) = [CallGoogle q].
Proof.
  unfold web_events. rewrite filter_app, googleSearch_trace_eq.
  destruct (google_configured w), (result (googleSearch w q)); reflexivity.
Qed.

Lemma openai_calls w q :
  filter is_call (trace (openaiChatAnswer w q [])) = [CallOpenai q []].
Proof.
  rewrite openaiChatAnswer_trace_eq.
  destruct (JsString.truthy (OPENAI_API_KEY w)); reflexivity.
Qed.

(** X12. In one search request the adapters are invoked at most once each
    and in the order index, web search, generative adapter, each only after
    the one before it; and the generative adapter is only ever invoked with
    an empty context, since a non-empty web result ends the request. *)
Theorem search_call_order primary w p s :
  filter is_call (new_events s (snd (search_with primary w p s))) = []
  \/ exists q,
       query_of p q
       /\ (filter is_call (new_events s (snd (search_with primary w p s)))
           = [CallPrimary q]
           \/ filter is_call (new_events s (snd (search_with primary w p s)))
              = [CallPrimary q; CallGoogle q]
           \/ filter is_call (new_events s (snd (search_with primary w p s)))
              = [CallPrimary q; CallGoogle q; CallOpenai q []]).
Proof.
  by_path primary w p s; unfold HandlerM.record;
    rewrite ?new_events_app, ?new_events_same.
  - now left.
  - now left.
  - now left.
  - right. exists q. split; [exact Hq|]. now left.
  - right. exists q. split; [exact Hq|]. right. left.
    rewrite !filter_app, googleSearch_trace_eq.
    destruct (google_configured w); reflexivity.
  - right. exists q. split; [exact Hq|]. right. right.
    rewrite !filter_app, web_events_calls, openai_calls. reflexivity.
  - right. exists q. split; [exact Hq|]. right. right.
    rewrite !filter_app, web_events_calls, openai_calls. reflexivity.
Qed.

Lemma web_events_fetches w q :
  filter is_fetch (web_events w q)
  = if google_configured w then [Fetch (google_request w q)] else [].
Proof.
  unfold web_events. rewrite filter_app, googleSearch_trace_eq.
  destruct (google_configured w), (result (googleSearch w q)); reflexivity.
Qed.

Lemma openai_fetches w q :
  filter is_fetch (trace (openaiChatAnswer w q []))
  = if JsString.truthy (OPENAI_API_KEY w)
    then [Fetch (answer_request w q [])] else [].
Proof.
  rewrite openaiChatAnswer_trace_eq.
  destruct (JsString.truthy (OPENAI_API_KEY w)); reflexivity.
Qed.

(** X13. One search request sends at most two requests upstream: at most
    one to the search service, with the trimmed query, and at most one to
    the chat service, with the trimmed query and no context, in this
    order. *)
Theorem search_upstream_requests primary w p s :
  (List.length
     (filter is_fetch (new_events s (snd (search_with primary w p s)))) <= 2)%nat
  /\ forall req,
       In (Fetch req) (new_events s (snd (search_with primary w p s))) ->
       exists q, query_of p q
                 /\ (req = google_request w q \/ req = answer_request w q []).
Proof.
  by_path primary w p s; unfold HandlerM.record;
    rewrite ?new_events_app, ?new_events_same.
  1-4: split; [cbn; lia|];
       intros req H; cbn in H;
       repeat match type of H with
              | _ \/ _ => destruct H as [H|H]
              end; try discriminate H; contradiction.
  - split.
    + rewrite !filter_app, googleSearch_trace_eq.
      destruct (google_configured w); cbn; lia.
    + intros req H. exists q. split; [exact Hq|]. left.
      rewrite googleSearch_trace_eq in H.
      destruct (google_configured w); cbn in H;
        repeat match type of H with
               | _ \/ _ => destruct H as [H|H]
               end; try discriminate H; try contradiction.
      now injection H as <-.
  - split.
    + rewrite !filter_app, web_events_fetches, openai_fetches.
      destruct (google_configured w), (JsString.truthy (OPENAI_API_KEY w));
        cbn; lia.
    + intros req H. exists q. split; [exact Hq|].
      assert (Hin : In (Fetch req)
                      (filter is_fetch
                         ([CacheHas q; CallPrimary q] ++ web_events w q
                            ++ trace (openaiChatAnswer w q [])
                            ++ [CacheSet q (FromOpenai (text ai))])))
        by (apply filter_In; split; [exact H|reflexivity]).
      rewrite !filter_app, web_events_fetches, openai_fetches in Hin.
      destruct (google_configured w), (JsString.truthy (OPENAI_API_KEY w));
        cbn in Hin;
        repeat match type of Hin with
               | _ \/ _ => destruct Hin as [Hin|Hin]
               end; try contradiction; injection Hin as <-; auto.
  - split.
    + rewrite !filter_app, web_events_fetches, openai_fetches.
      destruct (google_configured w), (JsString.truthy (OPENAI_API_KEY w));
        cbn; lia.
    + intros req H. exists q. split; [exact Hq|].
      assert (Hin : In (Fetch req)
                      (filter is_fetch
                         ([CacheHas q; CallPrimary q] ++ web_events w q
                            ++ trace (openaiChatAnswer w q [])
                            ++ [ConsoleError err])))
        by (apply filter_In; split; [exact H|reflexivity]).
      rewrite !filter_app, web_events_fetches, openai_fetches in Hin.
      destruct (google_configured w), (JsString.truthy (OPENAI_API_KEY w));
        cbn in Hin;
        repeat match type of Hin with
               | _ \/ _ => destruct Hin as [Hin|Hin]
               end; try contradiction; injection Hin as <-; auto.
Qed.

Ltac crack H :=
  rewrite ?in_app_iff in H; cbn [In] in H;
  repeat match type of H with
         | _ \/ _ => destruct H as [H|H]
         end.

(** X14. The cache is written exactly when a fresh result is sent: a store
    [cache.set(k, v)] happens in a search request if and only if [k] is the
    trimmed query and [v] is the outcome of the reply, sent without the
    [cached] flag; and never more than once. *)
Theorem search_stores_what_it_sends primary w p s :
  (forall k v,
     In (CacheSet k v) (new_events s (snd (search_with primary w p s))) <->
     query_text p = inr k
     /\ payload (fst (search_with primary w p s)) = SearchBody (Some v) false)
  /\ (List.length
        (filter is_store (new_events s (snd (search_with primary w p s))))
      <= 1)%nat.
Proof.
  by_path primary w p s; unfold HandlerM.record;
    rewrite ?new_events_app, ?new_events_same.
  - split; [|cbn; lia]. intros k v. split; [intros []|].
    intros [_ H]. discriminate H.
  - split; [|cbn; lia]. intros k v. split.
    + intros H. crack H; try discriminate H; contradiction.
    + intros [_ H]. discriminate H.
  - split; [|cbn; lia]. intros k v. split.
    + intros H. crack H; try discriminate H; contradiction.
    + intros [_ H]. discriminate H.
  - destruct Hq as [Hq Hne]. split; [|cbn; lia]. intros k v. split.
    + intros H. crack H; try discriminate H; try contradiction.
      injection H as <- <-. auto.
    + intros [Hk Hv]. cbn in Hv. injection Hv as <-.
      assert (k = q) by congruence. subst k. cbn. auto.
  - destruct Hq as [Hq Hne]. split.
    + intros k v. split.
      * intros H. crack H; try discriminate H; try contradiction.
        -- now elim (google_no_store _ _ _ _ H).
        -- injection H as <- <-. auto.
      * intros [Hk Hv]. cbn in Hv. injection Hv as <-.
        assert (k = q) by congruence. subst k.
        rewrite !in_app_iff. cbn. auto.
    + rewrite !filter_app, googleSearch_trace_eq.
      destruct (google_configured w); cbn; lia.
  - destruct Hq as [Hq Hne]. split.
    + intros k v. split.
      * intros H. crack H; try discriminate H; try contradiction.
        -- now elim (web_events_no_store _ _ _ _ H).
        -- now elim (openai_no_store _ _ _ _ _ H).
        -- injection H as <- <-. auto.
      * intros [Hk Hv]. cbn in Hv. injection Hv as <-.
        assert (k = q) by congruence. subst k.
        rewrite !in_app_iff. cbn. auto.
    + rewrite !filter_app. unfold web_events.
      rewrite filter_app, googleSearch_trace_eq, openaiChatAnswer_trace_eq.
      destruct (google_configured w), (JsString.truthy (OPENAI_API_KEY w)),
        (result (googleSearch w q)); cbn; lia.
  - split.
    + intros k v. split.
      * intros H. crack H; try discriminate H; try contradiction.
        -- now elim (web_events_no_store _ _ _ _ H).
        -- now elim (openai_no_store _ _ _ _ _ H).
      * intros [_ H]. discriminate H.
    + rewrite !filter_app. unfold web_events.
      rewrite filter_app, googleSearch_trace_eq, openaiChatAnswer_trace_eq.
      destruct (google_configured w), (JsString.truthy (OPENAI_API_KEY w)),
        (result (googleSearch w q)); cbn; lia.
Qed.

Lemma query_text_trim raw :
  query_text (QText (JsString.trim raw)) = query_text (QText raw).
Proof.
  simpl. f_equal.
  destruct raw as [|c raw]; [reflexivity|]. simpl JsString.truthy at 2.
  cbv iota.
  destruct (JsString.trim (c :: raw)) as [|d t] eqn:E; [reflexivity|].
  simpl JsString.truthy. cbv iota. rewrite <- E. apply trim_idempotent.
Qed.

(** X15. White space around the query does not matter: a request with a
    query and a request with that query already trimmed are served
    identically, reply and server state, so they also share one cache
    entry. *)
Theorem search_ignores_padding primary w raw s :
  search_with primary w (QText raw) s
  = search_with primary w (QText (JsString.trim raw)) s.
Proof.
  unfold search_with, search_body. now rewrite query_text_trim.
Qed.

Lemma openaiChatAnswer_empty w q res data :
  OPENAI_API_KEY w <> [] ->
  fetched (upstream w (answer_request w q [])) = inr res ->
  ok res = true ->
  body_json res = inr data ->
  Js.truthy (first_content data) = false ->
  result (openaiChatAnswer w q []) = inr {| text := []; raw := data |}.
Proof.
  intros Hk Hf Hok Hd Ht. apply truthy_nonempty in Hk.
  rewrite (openaiChatAnswer_result _ _ _ Hk). cbn. rewrite Hf. cbn.
  rewrite Hok. cbn. rewrite Hd. cbn.
  now rewrite (falsy_content_is_empty _ Ht).
Qed.

(** X16. An empty generated answer is a result like any other: when the
    chain reaches the generative adapter and the chat service answers 2xx
    with JSON whose content is absent or falsy, the request is answered 200
    with the empty answer, the empty answer is stored, and requests for the
    same query keep getting it from the cache until the entry expires. *)
Theorem search_caches_empty_answer primary w p q s res data :
  query_of p q ->
  LRU.has (cache s) (now s) q = false ->
  primary q = [] ->
  (exists e, result (googleSearch w q) = inl e)
  \/ result (googleSearch w q) = inr [] ->
  OPENAI_API_KEY w <> [] ->
  fetched (upstream w (answer_request w q [])) = inr res ->
  ok res = true ->
  body_json res = inr data ->
  Js.truthy (first_content data) = false ->
  let stored :=
    {| LRU.key := q; LRU.val := FromOpenai [];
       LRU.start := now s + elapsed (googleSearch w q)
                    + elapsed (openaiChatAnswer w q []) |} in
  fst (search_with primary w p s)
  = json_reply (SearchBody (Some (FromOpenai [])) false)
  /\ LRU.find (cache (snd (search_with primary w p s))) q = Some stored
  /\ forall w' s',
       LRU.find (cache s') q = Some stored ->
       now s' <= LRU.start stored + LRU.ttl ->
       fst (search_with primary w' p s')
       = json_reply (SearchBody (Some (FromOpenai [])) true).
Proof.
  intros Hq Hmiss Hp Hg Hk Hf Hok Hd Ht stored.
  pose proof (openaiChatAnswer_empty _ _ _ _ Hk Hf Hok Hd Ht) as Ho.
  rewrite (search_fallback _ _ _ _ _ Hq Hmiss Hp Hg), Ho. cbn.
  split; [reflexivity|]. split; [apply find_set|].
  intros w' s' Hfind Hnow.
  pose proof (not_stale stored (now s') Hnow) as Hlive.
  now rewrite (search_hit _ _ _ _ _ _ Hq Hfind Hlive).
Qed.

(** X17. An entry older than five minutes is not served: a request for its
    query is answered without the [cached] flag and goes through the chain
    again, starting with the index. *)
Theorem search_expired_entry primary w p k s old :
  query_of p k ->
  LRU.find (cache s) k = Some old ->
  LRU.start old + LRU.ttl < now s ->
  (forall o, payload (fst (search_with primary w p s)) <> SearchBody o true)
  /\ In (CallPrimary k) (new_events s (snd (search_with primary w p s))).
Proof.
  intros [Hk Hne] He Hold.
  assert (Hstale : LRU.isStale (now s) old = true).
  { unfold LRU.isStale. apply N.ltb_lt. lia. }
  by_path primary w p s; unfold HandlerM.record;
    rewrite ?new_events_app, ?new_events_same.
  1-2: congruence.
  all: destruct Hq as [Hq Hq']; assert (q = k) by congruence; subst q.
  1: congruence.
  all: split; [intros o; cbn; discriminate|].
  all: rewrite ?in_app_iff; cbn; auto.
Qed.

(** ** The cache of the running server *)

Section CacheShape.
Context {V : Type}.
Implicit Types (c : LRU.t V) (k : jsstring) (e : LRU.entry V).

Lemma remove_keys c k k' :
  In k' (map LRU.key (LRU.remove c k)) -> In k' (map LRU.key c) /\ k' <> k.
Proof.
  induction c as [|x c IH]; simpl; [tauto|].
  destruct (JsString.eqb (LRU.key x) k) eqn:E; simpl.
  - intros H. destruct (IH H). auto.
  - intros [Hx|H].
    + split; [now left|]. intros ->. rewrite Hx, eqb_refl in E.
      discriminate.
    + destruct (IH H). auto.
Qed.

Lemma remove_NoDup c k :
  NoDup (map LRU.key c) -> NoDup (map LRU.key (LRU.remove c k)).
Proof.
  induction c as [|x c IH]; simpl; [auto|].
  intros H. inversion H as [|? ? Hx Hc]; subst.
  destruct (JsString.eqb (LRU.key x) k); simpl; [auto|].
  constructor; [|auto]. intros Hin. apply remove_keys in Hin. tauto.
Qed.

Lemma remove_length c k :
  (List.length (LRU.remove c k) <= List.length c)%nat.
Proof.
  induction c as [|x c IH]; simpl; [lia|].
  destruct (JsString.eqb (LRU.key x) k); simpl; lia.
Qed.

Lemma remove_length_found c k e :
  LRU.find c k = Some e ->
  (List.length (LRU.remove c k) < List.length c)%nat.
Proof.
  induction c as [|x c IH]; simpl; [discriminate|].
  destruct (JsString.eqb (LRU.key x) k); simpl.
  - intros _. pose proof (remove_length c k). lia.
  - intros H. apply IH in H. lia.
Qed.

Lemma find_None c k : LRU.find c k = None -> ~ In k (map LRU.key c).
Proof.
  induction c as [|x c IH]; simpl; [tauto|].
  destruct (JsString.eqb (LRU.key x) k) eqn:E; [discriminate|].
  intros H [Hx|Hin]; [|now apply IH].
  rewrite Hx, eqb_refl in E. discriminate.
Qed.

Lemma removelast_keys c :
  map LRU.key (removelast c) = removelast (map LRU.key c).
Proof.
  induction c as [|x c IH]; [reflexivity|].
  destruct c as [|y c]; [reflexivity|].
  change (LRU.key x :: map LRU.key (removelast (y :: c))
          = LRU.key x :: removelast (map LRU.key (y :: c))).
  now rewrite IH.
Qed.

End CacheShape.

Lemma removelast_sub {A} (l : list A) x : In x (removelast l) -> In x l.
Proof.
  induction l as [|y l IH]; simpl; [tauto|].
  destruct l as [|z l]; simpl in *; intuition.
Qed.

Lemma removelast_NoDup {A} (l : list A) : NoDup l -> NoDup (removelast l).
Proof.
  induction l as [|y l IH]; simpl; [auto|].
  intros H. inversion H as [|? ? Hy Hl]; subst.
  destruct l as [|z l]; [constructor|].
  constructor; [|auto]. intros Hin. apply Hy. now apply removelast_sub.
Qed.

Lemma removelast_short {A} (l : list A) :
  l <> [] -> S (List.length (removelast l)) = List.length l.
Proof.
  induction l as [|y l IH]; [congruence|]. intros _.
  destruct l as [|z l]; [reflexivity|].
  change (S (S (List.length (removelast (z :: l)))) = S (List.length (z :: l))).
  rewrite IH; [reflexivity|discriminate].
Qed.

Lemma set_well_kept {V} (c : LRU.t V) t k (v : V) :
  well_kept c -> well_kept (LRU.set c t k v).
Proof.
  intros [Hd Hl]. unfold LRU.set, well_kept.
  destruct (LRU.find c k) as [e|] eqn:Hf.
  - split; simpl.
    + constructor; [|now apply remove_NoDup].
      intros Hin. apply remove_keys in Hin. tauto.
    + pose proof (remove_length_found _ _ _ Hf). lia.
  - pose proof (find_None _ _ Hf) as Hk.
    destruct (LRU.max <=? N.of_nat (List.length c)) eqn:Hfull; split.
    + simpl. constructor.
      * rewrite removelast_keys. intros Hin. apply Hk.
        now apply removelast_sub.
      * rewrite removelast_keys. now apply removelast_NoDup.
    + destruct c as [|x c]; [cbv; discriminate|].
      cbn [List.length].
      rewrite (removelast_short (x :: c)) by discriminate. exact Hl.
    + simpl. constructor; assumption.
    + apply N.leb_gt in Hfull. cbn [List.length]. lia.
Qed.

Lemma touch_well_kept {V} (c : LRU.t V) k e :
  LRU.find c k = Some e -> well_kept c -> well_kept (e :: LRU.remove c k).
Proof.
  intros Hf [Hd Hl]. split; simpl.
  - constructor; [|now apply remove_NoDup].
    rewrite (find_key _ _ _ Hf). intros Hin. apply remove_keys in Hin. tauto.
  - pose proof (remove_length_found _ _ _ Hf). lia.
Qed.

Lemma search_keeps_well_kept primary w p s :
  well_kept (cache s) -> well_kept (cache (snd (search_with primary w p s))).
Proof.
  intros H. by_path primary w p s; cbn [cache HandlerM.record];
    auto using set_well_kept, touch_well_kept.
Qed.

(** X18. The cache of the running server never holds two entries for one
    query and never more than 500 entries, whatever requests it has
    served. *)
Theorem reachable_cache_bounded s :
  reachable s ->
  NoDup (map LRU.key (cache s)) /\ N.of_nat (List.length (cache s)) <= 500.
Proof.
  induction 1 as [t|w req s _ IH|d s _ IH].
  - split; [constructor|cbv; discriminate].
  - destruct req as [p|body]; cbn [app].
    + now apply search_keeps_well_kept.
    + destruct (ai_effect w body s) as [-> _]. exact IH.
  - exact IH.
Qed.

Lemma query_of_trimmed p q : query_of p q -> trimmed q.
Proof.
  intros [H _]. destruct p; simpl in H; try discriminate;
    injection H as <-; apply trim_trimmed.
Qed.

Lemma search_keeps_well_keyed primary w p s :
  (forall e, In e (cache s) -> well_keyed e) ->
  forall e, In e (cache (snd (search_with primary w p s))) -> well_keyed e.
Proof.
  intros H. by_path primary w p s; cbn [cache HandlerM.record]; auto.
  - intros x [<-|Hx]; eauto using find_In, remove_In.
  - intros x Hx. apply set_In in Hx as [->|Hx]; [|auto].
    repeat split; cbn; try apply (query_of_trimmed _ _ Hq); auto.
    apply Hq.
  - intros x Hx. apply set_In in Hx as [->|Hx]; [|auto].
    repeat split; cbn; try apply (query_of_trimmed _ _ Hq); auto.
    apply Hq.
  - intros x Hx. apply set_In in Hx as [->|Hx]; [|auto].
    pose proof (cleanText_inr _ _ (openaiChatAnswer_inr _ _ _ _ Ho)) as [Ha Hb].
    repeat split; cbn; try apply (query_of_trimmed _ _ Hq); auto.
    apply Hq.
Qed.

(** X19. Every entry in the cache of the running server is filed under a
    non-empty query without surrounding white space and holds either a
    non-empty list of found items or a generated answer without surrounding
    white space. *)
Theorem reachable_cache_entries s :
  reachable s ->
  forall e, In e (cache s) -> well_keyed e.
Proof.
  induction 1 as [t|w req s _ IH|d s _ IH].
  - intros e [].
  - destruct req as [p|body]; cbn [app].
    + now apply search_keeps_well_keyed.
    + destruct (ai_effect w body s) as [-> _]. exact IH.
  - exact IH.
Qed.

(** ** The assistant route *)

(** X20. A request to the assistant route never reads or writes the cache,
    and sends at most one request upstream: exactly one, carrying the
    cleaned prompt, when the prompt cleans to a non-empty text, and none
    when it is empty or cannot be turned into text. *)
Theorem ai_requests w body s :
  cache (snd (ai w body s)) = cache s
  /\ (forall k, ~ In (CacheHas k) (new_events s (snd (ai w body s)))
                /\ ~ In (CacheGet k) (new_events s (snd (ai w body s))))
  /\ filter is_fetch (new_events s (snd (ai w body s)))
     = match cleanText (Js.get_opt body Js.K_prompt) with
       | inr (c :: prompt) => [Fetch (ai_request w (c :: prompt))]
       | _ => []
       end.
Proof.
  handler_unfold. unfold RunM.fetch.
  destruct (cleanText (Js.get_opt body Js.K_prompt)) as [e|[|c prompt]]; cbn.
  - rewrite new_events_app. split; [reflexivity|].
    split; [|reflexivity].
    intros k; split; intros H; crack H; try discriminate H; contradiction.
  - rewrite new_events_same. split; [reflexivity|].
    split; [|reflexivity]. intros k; split; intros [].
  - destruct (fetched _) as [e|r]; cbn.
    { rewrite <- app_assoc, new_events_app. split; [reflexivity|].
      split; [|reflexivity].
      intros k; split; intros H; crack H; try discriminate H; contradiction. }
    destruct (ok r); cbn.
    2:{ destruct (body_text r) as [e|txt]; cbn;
          rewrite <- app_assoc, new_events_app;
          (split; [reflexivity|]); (split; [|reflexivity]);
          intros k; split; intros H; crack H; try discriminate H;
          contradiction. }
    destruct (body_json r) as [e|data]; cbn.
    { rewrite <- app_assoc, new_events_app. split; [reflexivity|].
      split; [|reflexivity].
      intros k; split; intros H; crack H; try discriminate H; contradiction. }
    destruct (cleanText (first_content data)) as [e|reply]; cbn.
    { rewrite <- app_assoc, new_events_app. split; [reflexivity|].
      split; [|reflexivity].
      intros k; split; intros H; crack H; try discriminate H; contradiction. }
    rewrite new_events_app. split; [reflexivity|].
    split; [|reflexivity].
    intros k; split; intros H; crack H; try discriminate H; contradiction.
Qed.

(** X21. The assistant route answers 400 exactly when the prompt cleans to
    the empty text; and when it answers 200, the reply text has no
    surrounding white space and the assistant is named [I]. *)
Theorem ai_status w body s :
  (code (fst (ai w body s)) = 400 <->
   cleanText (Js.get_opt body Js.K_prompt) = inr [])
  /\ (code (fst (ai w body s)) = 200 ->
      exists reply,
        payload (fst (ai w body s)) = AiBody (js "I") reply
        /\ trimmed reply).
Proof.
  handler_unfold. unfold RunM.fetch.
  destruct (cleanText (Js.get_opt body Js.K_prompt)) as [e|[|c prompt]]; cbn.
  - split; [split; discriminate|discriminate].
  - split; [split; reflexivity|discriminate].
  - destruct (fetched _) as [e|r]; cbn;
      [split; [split; discriminate|discriminate]|].
    destruct (ok r); cbn.
    2:{ destruct (body_text r); cbn;
          (split; [split; discriminate|discriminate]). }
    destruct (body_json r) as [e|data]; cbn;
      [split; [split; discriminate|discriminate]|].
    destruct (cleanText (first_content data)) as [e|reply] eqn:E; cbn;
      [split; [split; discriminate|discriminate]|].
    split; [split; discriminate|]. intros _. exists reply.
    split; [reflexivity|]. exact (cleanText_inr _ _ E).
Qed.

(** * The further properties at sample inputs *)

(** X1 at a padded string. *)
Lemma cleanText_trimmed_witness :
  trimmed (js "hi") /\ cleanText (VJson (JStr (js "hi"))) = inr (js "hi").
Proof.
  apply (cleanText_trimmed (VJson (JStr (js "  hi  "))) (js "hi")).
  vm_compute. reflexivity.
Defined.

(** X2 at an object with its own [toString]. *)
Lemma cleanText_failure_witness :
  TypeError = TypeError /\ is_array_or_object (VJson unprintable).
Proof.
  apply (cleanText_failure (VJson unprintable) TypeError).
  vm_compute. reflexivity.
Defined.

(** X4 at a search service that answers 401. *)
Lemma googleSearch_http_error_witness :
  result (googleSearch refused_world france_query)
  = inl (Error (js "Google API error 401")).
Proof.
  rewrite (googleSearch_http_error refused_world france_query
             {| status := 401;
                body_text := inr (js "missing bearer token");
                body_json := inl (Error (js "not read")) |}).
  - vm_compute. reflexivity.
  - reflexivity.
  - reflexivity.
  - right. vm_compute. reflexivity.
Defined.

(** X5 at a search service that answers with two hits. *)
Lemma googleSearch_maps_hits_witness :
  result (googleSearch (sample_world 2 JNull) france_query)
  = inr [item_of_hit sample_hit; item_of_hit sample_hit].
Proof.
  apply (proj1 (googleSearch_maps_hits (sample_world 2 JNull) france_query
                  {| status := 200; body_text := inr [];
                     body_json :=
                       inr (JObj [(js "items", JArr [sample_hit; sample_hit])]) |}
                  (JObj [(js "items", JArr [sample_hit; sample_hit])])
                  [sample_hit; sample_hit]
                  eq_refl eq_refl eq_refl eq_refl eq_refl)).
  repeat constructor; discriminate.
Defined.

(** X6 at a search service that answers with an empty object. *)
Lemma googleSearch_without_hits_witness :
  result (googleSearch (constant_world (JObj [])) france_query) = inr [].
Proof.
  apply (proj1 (googleSearch_without_hits (constant_world (JObj []))
                  france_query
                  {| status := 200; body_text := inr [];
                     body_json := inr (JObj []) |}
                  (JObj []) VUndefined
                  eq_refl eq_refl eq_refl eq_refl eq_refl)).
  reflexivity.
Defined.

(** X8 at a chat service that answers 401. *)
Lemma openaiChatAnswer_http_error_witness :
  result (openaiChatAnswer refused_world france_query [])
  = inl (Error (js "OpenAI error 401: missing bearer token")).
Proof.
  rewrite (openaiChatAnswer_http_error refused_world france_query [] []
             {| status := 401;
                body_text := inr (js "missing bearer token");
                body_json := inl (Error (js "not read")) |}
             (js "missing bearer token")).
  - vm_compute. reflexivity.
  - discriminate.
  - reflexivity.
  - reflexivity.
  - right. vm_compute. reflexivity.
  - reflexivity.
Defined.

(** X9 at a chat service that answers with padded text. *)
Lemma openaiChatAnswer_trimmed_witness : trimmed (js "Paris").
Proof.
  apply (openaiChatAnswer_trimmed (sample_world 0 (JStr (js " Paris ")))
           france_query []
           {| text := js "Paris"; raw := chat_answer (JStr (js " Paris ")) |}).
  vm_compute. reflexivity.
Defined.

(** X10 at a search service that answers with one hit. *)
Lemma search_web_short_circuit_witness :
  fst (search (sample_world 1 JNull) france start)
  = json_reply (SearchBody (Some (FromGoogle [item_of_hit sample_hit])) false).
Proof.
  unfold search.
  rewrite (search_web_short_circuit primarySearch (sample_world 1 JNull)
             france france_query start [item_of_hit sample_hit]).
  - reflexivity.
  - split; [vm_compute; reflexivity|discriminate].
  - reflexivity.
  - reflexivity.
  - vm_compute. reflexivity.
  - discriminate.
Defined.

(** X16 at services that answer every request with an empty object. *)
Lemma search_caches_empty_answer_witness :
  fst (search (constant_world (JObj [])) france start)
  = json_reply (SearchBody (Some (FromOpenai [])) false).
Proof.
  apply (search_caches_empty_answer primarySearch (constant_world (JObj []))
           france france_query start
           {| status := 200; body_text := inr []; body_json := inr (JObj []) |}
           (JObj [])).
  - split; [vm_compute; reflexivity|discriminate].
  - reflexivity.
  - reflexivity.
  - right. vm_compute. reflexivity.
  - discriminate.
  - reflexivity.
  - reflexivity.
  - reflexivity.
  - reflexivity.
Defined.

(** X17 at the server long after it answered the sample search. *)
Lemma search_expired_entry_witness :
  In (CallPrimary france_query)
     (new_events much_later (snd (search (sample_world 0 JNull) france much_later))).
Proof.
  apply (search_expired_entry primarySearch (sample_world 0 JNull) france
           france_query much_later
           {| LRU.key := france_query;
              LRU.val := FromGoogle [item_of_hit sample_hit];
              LRU.start := 120 |}).
  - split; [vm_compute; reflexivity|discriminate].
  - vm_compute. reflexivity.
  - vm_compute. reflexivity.
Defined.

(** X18 and X19 at the server that has answered the sample search. *)
Lemma reachable_cache_bounded_witness :
  NoDup (map LRU.key
           (cache (snd (app (sample_world 1 JNull) (GetSearch france) start))))
  /\ N.of_nat (List.length
                 (cache (snd (app (sample_world 1 JNull) (GetSearch france)
                                  start)))) <= 500.
Proof.
  apply (reachable_cache_bounded
           (snd (app (sample_world 1 JNull) (GetSearch france) start))).
  apply reach_request. apply reach_start.
Defined.

Lemma reachable_cache_entries_witness :
  well_keyed {| LRU.key := france_query;
                LRU.val := FromGoogle [item_of_hit sample_hit];
                LRU.start := 120 |}.
Proof.
  apply (reachable_cache_entries
           (snd (app (sample_world 1 JNull) (GetSearch france) start))).
  - apply reach_request. apply reach_start.
  - vm_compute. left. reflexivity.
Defined.
